(** * Orchest web client: PipelineList and LoadParametersDialog

    A shallow embedding of the logic of

      - [client/src/components/PipelineList.tsx]
      - [client/src/edit-job-view/LoadParametersDialog.tsx]

    JavaScript strings are sequences of UTF-16 code units, numbers are
    IEEE-754 doubles (only the integral ones occur here), regular
    expressions are run by a backtracking matcher, and event handlers are
    functions from the component state to the trace of effects they
    perform. *)

From Stdlib Require Import String Ascii.
From Stdlib Require Import List ZArith NArith Lia Bool Permutation.
Import ListNotations.

Set Implicit Arguments.

(** ** JavaScript strings *)

Module JS.

Definition codeUnit := N.
Definition jsstring := list codeUnit.

(** A string literal of the source, as its code units. *)
Definition js (s : string) : jsstring :=
  List.map N_of_ascii (list_ascii_of_string s).

Fixpoint streq (a b : jsstring) : bool :=
  match a, b with
  | [], [] => true
  | x :: a', y :: b' => N.eqb x y && streq a' b'
  | _, _ => false
  end.

Definition isDigit (c : codeUnit) : bool := (48 <=? c)%N && (c <=? 57)%N.
Definition isUpper (c : codeUnit) : bool := (65 <=? c)%N && (c <=? 90)%N.
Definition isLower (c : codeUnit) : bool := (97 <=? c)%N && (c <=? 122)%N.

(** [\w] is [[A-Za-z0-9_]]; [\W] is its complement. *)
Definition isWordChar (c : codeUnit) : bool :=
  isDigit c || isUpper c || isLower c || (c =? 95)%N.
Definition isNonWordChar (c : codeUnit) : bool := negb (isWordChar c).

(** [.] without the [s] flag: anything but a line terminator. *)
Definition isLineTerminator (c : codeUnit) : bool :=
  (c =? 10)%N || (c =? 13)%N || (c =? 8232)%N || (c =? 8233)%N.
Definition anyChar (c : codeUnit) : bool := negb (isLineTerminator c).

(** WhiteSpace and LineTerminator code units, as removed by [trim] and
    skipped by [parseInt]. *)
Definition isWhiteSpace (c : codeUnit) : bool :=
  ((9 <=? c)%N && (c <=? 13)%N) || (c =? 32)%N || (c =? 160)%N
  || (c =? 5760)%N || ((8192 <=? c)%N && (c <=? 8202)%N)
  || (c =? 8232)%N || (c =? 8233)%N || (c =? 8239)%N || (c =? 8287)%N
  || (c =? 12288)%N || (c =? 65279)%N.

Fixpoint trimStart (s : jsstring) : jsstring :=
  match s with
  | c :: s' => if isWhiteSpace c then trimStart s' else s
  | [] => []
  end.

Definition trim (s : jsstring) : jsstring :=
  rev (trimStart (rev (trimStart s))).

Definition endsWith (s suffix : jsstring) : bool :=
  (length suffix <=? length s)%nat
  && streq (skipn (length s - length suffix) s) suffix.

Definition isAscii (c : codeUnit) : bool := (c <? 128)%N.
Definition asciiLower (c : codeUnit) : codeUnit :=
  if isUpper c then (c + 32)%N else c.
Definition asciiUpper (c : codeUnit) : codeUnit :=
  if isLower c then (c - 32)%N else c.

(** Comparison of an input code unit with an ASCII pattern character under
    the [i] flag (no [u] flag).  Canonicalize never maps a code unit above
    127 to one below 128, so only the two ASCII cases of a letter match. *)
Definition eqIgnoreCase (pat c : codeUnit) : bool :=
  isAscii c && (asciiUpper c =? asciiUpper pat)%N.

(** *** Regular expressions

    The fragment of the pattern language that the two files use. *)

Inductive regex : Type :=
| Chr (p : codeUnit -> bool)   (* a literal, a class or [.] *)
| Bol                          (* [^] *)
| Eol                          (* [$] *)
| Empty
| Seq (r1 r2 : regex)
| Opt (r : regex)              (* [r?], greedy *)
| Star (p : codeUnit -> bool)  (* [[class]*], greedy *)
| Group (r : regex).           (* [(r)], capture 1 *)

Definition Plus (p : codeUnit -> bool) : regex := Seq (Chr p) (Star p).

Definition litWith (eqc : codeUnit -> codeUnit -> bool) (s : jsstring) : regex :=
  fold_right (fun c r => Seq (Chr (eqc c)) r) Empty s.
Definition lit : jsstring -> regex := litWith N.eqb.
Definition litI : jsstring -> regex := litWith eqIgnoreCase.

(** Matcher state: index into the subject, what is left of it, and the
    value of capture 1. *)
Record mstate : Type := MState {
  pos : nat;
  rest : jsstring;
  cap : option jsstring
}.

Section Matcher.
Variable R : Type.

(** Greedy iteration of a class: take a code unit and go on, and come
    back to the continuation here if that fails further on. *)
Fixpoint star (p : codeUnit -> bool) (i : nat) (s : jsstring)
         (c1 : option jsstring) (k : mstate -> option R) : option R :=
  match s with
  | c :: s' =>
      if p c then
        match star p (S i) s' c1 k with
        | Some x => Some x
        | None => k (MState i s c1)
        end
      else k (MState i s c1)
  | [] => k (MState i s c1)
  end.

Fixpoint run (r : regex) (st : mstate) (k : mstate -> option R) : option R :=
  match r with
  | Chr p =>
      match rest st with
      | c :: s' => if p c then k (MState (S (pos st)) s' (cap st)) else None
      | [] => None
      end
  | Bol => if Nat.eqb (pos st) 0 then k st else None
  | Eol => match rest st with [] => k st | _ :: _ => None end
  | Empty => k st
  | Seq r1 r2 => run r1 st (fun st1 => run r2 st1 k)
  | Opt r1 =>
      match run r1 st k with
      | Some x => Some x
      | None => k st
      end
  | Star p => star p (pos st) (rest st) (cap st) k
  | Group r1 =>
      run r1 st (fun st1 =>
        k (MState (pos st1) (rest st1)
                  (Some (firstn (pos st1 - pos st) (rest st)))))
  end.
End Matcher.

(** The result of [RegExp.prototype.exec]: where the match starts, the
    matched text ([m[0]]) and capture 1 ([m[1]], [None] for undefined). *)
Record matchResult : Type := MatchResult {
  index : nat;
  matched : jsstring;
  group1 : option jsstring
}.

(** Try every start index from [i] on, left to right; [s] is the subject
    from index [i]. *)
Fixpoint execFrom (r : regex) (i : nat) (s : jsstring) : option matchResult :=
  match run r (MState i s None) (fun st => Some st) with
  | Some st' => Some (MatchResult i (firstn (pos st' - i) s) (cap st'))
  | None =>
      match s with
      | [] => None
      | _ :: s' => execFrom r (S i) s'
      end
  end.

(** [s.match(r)] for a regular expression without the [g] flag. *)
Definition jsmatch (s : jsstring) (r : regex) : option matchResult :=
  execFrom r 0 s.

(** [s.replace(r, rep)] without the [g] flag, [rep] free of [$]. *)
Definition replace (r : regex) (rep s : jsstring) : jsstring :=
  match execFrom r 0 s with
  | None => s
  | Some m =>
      firstn (index m) s ++ rep ++ skipn (index m + length (matched m)) s
  end.

(** [s.replace(r, rep)] with the [g] flag: every match, left to right;
    after an empty match the search resumes one code unit further. [s] is
    the subject from index [i]. *)
Fixpoint replaceAllFrom (fuel : nat) (r : regex) (rep : jsstring)
         (i : nat) (s : jsstring) : jsstring :=
  match fuel with
  | O => s
  | S fuel' =>
      match execFrom r i s with
      | None => s
      | Some m =>
          let before := firstn (index m - i) s in
          let from := skipn (index m - i) s in
          match matched m with
          | [] =>
              before ++ rep ++
              match from with
              | [] => []
              | c :: t => c :: replaceAllFrom fuel' r rep (S (index m)) t
              end
          | _ :: _ =>
              before ++ rep ++
              replaceAllFrom fuel' r rep (index m + length (matched m))
                             (skipn (length (matched m)) from)
          end
      end
  end.

Definition replaceAll (r : regex) (rep s : jsstring) : jsstring :=
  replaceAllFrom (S (length s)) r rep 0 s.

End JS.

Import JS.

(** ** JavaScript numbers

    Every number this code can produce is NaN, an infinity or an integer
    that a double represents exactly.  [Num z] stands for the double whose
    value is the integer [z]; arithmetic rounds the exact result to the
    nearest double, ties to the even significand. *)

Module Number.

Local Open Scope Z_scope.

Inductive number : Type := NaN | Num (z : Z) | PosInf | NegInf.

(** The double nearest to the natural number [n]. *)
Definition roundNat (n : Z) : number :=
  if n <? 2 ^ 53 then Num n
  else
    let e := Z.log2 n - 52 in
    let q := n / 2 ^ e in
    let r := n mod 2 ^ e in
    let half := 2 ^ (e - 1) in
    let q' := if (half <? r) || ((r =? half) && Z.odd q) then q + 1 else q in
    let v := q' * 2 ^ e in
    if v <? 2 ^ 1024 then Num v else PosInf.

Definition neg (x : number) : number :=
  match x with
  | NaN => NaN
  | Num z => Num (- z)
  | PosInf => NegInf
  | NegInf => PosInf
  end.

Definition ofZ (z : Z) : number :=
  if z <? 0 then neg (roundNat (- z)) else roundNat z.

(** [a + b] *)
Definition add (a b : number) : number :=
  match a, b with
  | NaN, _ | _, NaN => NaN
  | PosInf, NegInf | NegInf, PosInf => NaN
  | PosInf, _ | _, PosInf => PosInf
  | NegInf, _ | _, NegInf => NegInf
  | Num x, Num y => ofZ (x + y)
  end.

(** [a > b] *)
Definition gt (a b : number) : bool :=
  match a, b with
  | NaN, _ | _, NaN => false
  | PosInf, PosInf => false
  | PosInf, _ => true
  | _, PosInf => false
  | NegInf, _ => false
  | Num _, NegInf => true
  | Num x, Num y => y <? x
  end.

(** Decimal digits of a natural number, most significant first. *)
Fixpoint digitsRev (fuel : nat) (n : Z) : jsstring :=
  match fuel with
  | O => []
  | S fuel' =>
      Z.to_N (48 + n mod 10)
      :: (if n <? 10 then [] else digitsRev fuel' (n / 10))
  end.

Definition decimal (n : Z) : jsstring :=
  rev (digitsRev (S (Z.to_nat (Z.log2 n))) n).

(** Number::toString picks the shortest digit string [s] and the exponent
    [j] with [s * 10^j] still denoting the same double, and among those
    the value closest to it (the even one on a tie). [shortest j z] tries
    the exponents from [j] down. *)
Definition denotes (c z : Z) : bool :=
  (0 <? c) && match ofZ c with Num v => v =? z | _ => false end.

Fixpoint shortest (j : nat) (z : Z) : Z * nat :=
  match j with
  | O => (z, O)
  | S j' =>
      let p := 10 ^ Z.of_nat j in
      let lo := (z / p) * p in
      let hi := lo + p in
      match denotes lo z, denotes hi z with
      | true, true =>
          if z - lo <? hi - z then (lo, j)
          else if hi - z <? z - lo then (hi, j)
          else if Z.even (lo / p) then (lo, j) else (hi, j)
      | true, false => (lo, j)
      | false, true => (hi, j)
      | false, false => shortest j' z
      end
  end.

Definition toStringNat (z : Z) : jsstring :=
  if z <? 2 ^ 53 then decimal z
  else
    let '(c, j) := shortest (List.length (decimal z)) z in
    let n := List.length (decimal c) in
    if (n <=? 21)%nat then decimal c
    else
      match decimal (c / 10 ^ Z.of_nat j) with
      | [] => []
      | d :: [] => d :: js "e+" ++ decimal (Z.of_nat n - 1)
      | d :: ds => d :: js "." ++ ds ++ js "e+" ++ decimal (Z.of_nat n - 1)
      end.

(** [String(x)], as a template literal renders a number. *)
Definition toString (x : number) : jsstring :=
  match x with
  | NaN => js "NaN"
  | PosInf => js "Infinity"
  | NegInf => js "-Infinity"
  | Num z => if z <? 0 then js "-" ++ toStringNat (- z) else toStringNat z
  end.

(** [parseInt(s)] with no radix argument: leading white space, a sign, a
    [0x] prefix, then the longest run of digits of the radix; NaN if that
    run is empty. *)
Definition digitValue (radix : Z) (c : codeUnit) : option Z :=
  let v :=
    if isDigit c then Some (Z.of_N c - 48)
    else if isLower c then Some (Z.of_N c - 87)
    else if isUpper c then Some (Z.of_N c - 55)
    else None in
  match v with
  | Some d => if d <? radix then Some d else None
  | None => None
  end.

Fixpoint parseDigits (radix : Z) (acc : option Z) (s : jsstring) : option Z :=
  match s with
  | c :: s' =>
      match digitValue radix c with
      | Some d =>
          parseDigits radix
            (Some (radix * match acc with Some a => a | None => 0 end + d)) s'
      | None => acc
      end
  | [] => acc
  end.

Definition parseInt (s : jsstring) : number :=
  let s1 := trimStart s in
  let '(sign, s2) :=
    match s1 with
    | c :: t =>
        if (c =? 45)%N then (-1, t)          (* [-] *)
        else if (c =? 43)%N then (1, t)      (* [+] *)
        else (1, s1)
    | [] => (1, s1)
    end in
  let '(radix, s3) :=
    match s2 with
    | z :: x :: t =>
        if (z =? 48)%N && ((x =? 120)%N || (x =? 88)%N)   (* [0x], [0X] *)
        then (16, t) else (10, s2)
    | _ => (10, s2)
    end in
  match parseDigits radix None s3 with
  | None => NaN
  | Some v => ofZ (sign * v)
  end.

End Number.

Module Math.

Import Number.

(** [Math.max(a, b)] *)
Definition max (a b : number) : number :=
  match a, b with
  | NaN, _ | _, NaN => NaN
  | _, _ => if gt b a then b else a
  end.

End Math.

(** ** components/PipelineList.tsx *)

Module PipelineList.

Import Number.

Definition INITIAL_PIPELINE_NAME : jsstring := js "Main".
Definition INITIAL_PIPELINE_PATH : jsstring := js "main.orchest".

(** [new RegExp(`^${INITIAL_PIPELINE_NAME}( [0-9]+)?`, "i")]; the space
    and the digits have no other case, so the flag only concerns the
    letters of the base name. *)
Definition regExp : regex :=
  Seq Bol
      (Seq (litI INITIAL_PIPELINE_NAME)
           (Opt (Group (Seq (lit (js " ")) (Plus isDigit))))).

Record PipelineMetaData : Type := {
  name : jsstring;
  path : jsstring;
  uuid : jsstring
}.

(** The callback that [getValidNewPipelineName] hands to [reduce]. *)
Definition largerNumber (existingNumber : number) (pipeline : PipelineMetaData)
  : number :=
  match jsmatch (name pipeline) regExp with
  | None => existingNumber
  | Some matches =>
      let currentNumber :=
        match group1 matches with
        | None | Some [] => Num 0
        | Some g => parseInt (trim g)
        end in
      Math.max existingNumber currentNumber
  end.

Definition getValidNewPipelineName (pipelines : list PipelineMetaData) : jsstring :=
  let largestExistingNumber := fold_left largerNumber pipelines (Num (-1)) in
  let newNumber := add largestExistingNumber (Num 1) in
  if gt newNumber (Num 0)
  then INITIAL_PIPELINE_NAME ++ js " " ++ toString newNumber
  else INITIAL_PIPELINE_NAME.

Section LowerCase.

(** [String.prototype.toLowerCase] on a string with a code unit above
    127: the Unicode case tables, which are not part of this
    repository. Within ASCII only [A]-[Z] change. *)
Variable unicodeToLowerCase : jsstring -> jsstring.

Definition toLowerCase (s : jsstring) : jsstring :=
  if forallb isAscii s then List.map asciiLower s else unicodeToLowerCase s.

Definition getPathFromName (name : jsstring) : jsstring :=
  replaceAll (Chr isNonWordChar) (js "_") (toLowerCase name)
  ++ js ".orchest".

End LowerCase.

(** The object that [getErrorMessages(path)] builds, its own entries
    ([getOwnProperty]) and the lookup [getErrorMessages(path)[key]]
    ([getProperty]). *)
Definition getErrorMessages (path : jsstring) : list (jsstring * jsstring) :=
  [ (js "0", []);
    (js "1", js "Cannot change the pipeline path if an interactive session is running. Please stop it first.");
    (js "2", js "Cannot change the pipeline path, a file path with the name "
             ++ path ++ [34%N] ++ js " already exists.");
    (js "3", js "The pipeline does not exist.");
    (js "4", js "The pipeline file name should end with "
             ++ [34%N] ++ js ".orchest" ++ [34%N] ++ js ".");
    (js "5", js "The pipeline file does not exist.");
    (js "6", js "Can't move the pipeline outside of the project.") ].

Fixpoint getOwnProperty (o : list (jsstring * jsstring)) (key : jsstring)
  : option jsstring :=
  match o with
  | [] => None
  | (k, v) :: o' => if streq k key then Some v else getOwnProperty o' key
  end.

(** The property names of [Object.prototype], which every object literal
    inherits: methods, and the object's prototype under [__proto__]. *)
Definition objectPrototypeKeys : list jsstring :=
  [ js "constructor"; js "hasOwnProperty"; js "isPrototypeOf";
    js "propertyIsEnumerable"; js "toLocaleString"; js "toString";
    js "valueOf"; js "__proto__"; js "__defineGetter__";
    js "__defineSetter__"; js "__lookupGetter__"; js "__lookupSetter__" ].

(** What [o[key]] gives for an object literal [o] with string values: an
    own value, a member of [Object.prototype], or [undefined]. *)
Inductive propertyValue : Type :=
| StringValue (v : jsstring)
| InheritedValue (key : jsstring)
| UndefinedValue.

Definition getProperty (o : list (jsstring * jsstring)) (key : jsstring)
  : propertyValue :=
  match getOwnProperty o key with
  | Some v => StringValue v
  | None =>
      if existsb (streq key) objectPrototypeKeys
      then InheritedValue key else UndefinedValue
  end.

(** *** Network requests and their outcomes *)

Inductive httpMethod : Type := POST | PUT | DELETE.

(** A call of [fetcher]: [body] lists the fields of the object handed to
    [JSON.stringify] (empty when there is no body); the content-type
    header is left out. *)
Record request : Type := {
  method : httpMethod;
  url : jsstring;
  body : list (jsstring * jsstring)
}.

(** What [JSON.parse] makes of the body of a failed response.
    [JsonValue message code] is any value [v] other than [null]:
    [message] is the text that [`${v.message}`] renders and [code] the
    property key that [v.code] converts to, [js "2"] for the number 2. *)
Inductive responseBody : Type :=
| NotJson                                    (* [JSON.parse] throws *)
| JsonNull                                   (* reading a property throws *)
| JsonValue (message code : jsstring).

Record rejection : Type := {
  isCanceled : bool;
  responseText : responseBody
}.

Inductive outcome : Type :=
| Fulfilled
| Rejected (e : rejection).

(** *** Component state *)

Record editing : Type := { editUuid : jsstring; editPath : jsstring }.

Record state : Type := {
  pipelines : option (list PipelineMetaData);   (* [data] of useSWR *)
  pipelineInEdit : option editing;
  isCreateDialogOpen : bool;
  isEditingPipelinePath : bool;
  createPipelineName : jsstring;
  createPipelinePath : jsstring
}.

Definition initialState : state :=
  {| pipelines := None;
     pipelineInEdit := None;
     isCreateDialogOpen := false;
     isEditingPipelinePath := true;
     createPipelineName := INITIAL_PIPELINE_NAME;
     createPipelinePath := INITIAL_PIPELINE_PATH |}.

(** *** Effects of the handlers, in the order they happen *)

Inductive effect : Type :=
| SetAlert (title : jsstring) (content : option jsstring)
| SetAlertInherited (title key : jsstring)   (* content [Object.prototype[key]] *)
| SetConfirm (title content : jsstring)
| Fetch (r : request)
| RequestFetchPipelines
| SetIsCreateDialogOpen (b : bool)
| SetIsEditingPipelinePath (b : bool)
| SetPipelineInEdit (e : editing)
| ConsoleError
| Resolve (b : bool).

Definition isFetch (e : effect) : bool :=
  match e with Fetch _ => true | _ => false end.
Definition isSetAlert (e : effect) : bool :=
  match e with
  | SetAlert _ _ | SetAlertInherited _ _ => true
  | _ => false
  end.

(** [setAlert(title, value)] for a looked-up value; [None] is
    [undefined]. *)
Definition setAlertValue (title : jsstring) (value : propertyValue) : effect :=
  match value with
  | StringValue v => SetAlert title (Some v)
  | InheritedValue key => SetAlertInherited title key
  | UndefinedValue => SetAlert title None
  end.
Definition isRequestFetchPipelines (e : effect) : bool :=
  match e with RequestFetchPipelines => true | _ => false end.

(** The state setters among the effects. *)
Definition applyEffect (st : state) (e : effect) : state :=
  match e with
  | SetIsCreateDialogOpen b =>
      {| pipelines := pipelines st;
         pipelineInEdit := pipelineInEdit st;
         isCreateDialogOpen := b;
         isEditingPipelinePath := isEditingPipelinePath st;
         createPipelineName := createPipelineName st;
         createPipelinePath := createPipelinePath st |}
  | SetIsEditingPipelinePath b =>
      {| pipelines := pipelines st;
         pipelineInEdit := pipelineInEdit st;
         isCreateDialogOpen := isCreateDialogOpen st;
         isEditingPipelinePath := b;
         createPipelineName := createPipelineName st;
         createPipelinePath := createPipelinePath st |}
  | SetPipelineInEdit e =>
      {| pipelines := pipelines st;
         pipelineInEdit := Some e;
         isCreateDialogOpen := isCreateDialogOpen st;
         isEditingPipelinePath := isEditingPipelinePath st;
         createPipelineName := createPipelineName st;
         createPipelinePath := createPipelinePath st |}
  | _ => st
  end.

Definition applyEffects (st : state) (es : list effect) : state :=
  fold_left applyEffect es st.

(** [pipelineRows.some((row) => row.path === state.createPipelinePath)];
    a row has the [path] of its pipeline. *)
Definition isPathTaken (st : state) : bool :=
  existsb (fun row => streq (path row) (createPipelinePath st))
          (match pipelines st with Some ps => ps | None => [] end).

(** What the create dialog renders from [isPathTaken]: the helper text of
    the path field and the [disabled] flag of the submit button. *)
Definition pathHelperText (st : state) : jsstring :=
  if isPathTaken st then js "File already exists" else [].
Definition createButtonDisabled (st : state) (isOperating : bool) : bool :=
  isPathTaken st || isOperating.

Definition editDialogOpen (st : state) : bool :=
  isEditingPipelinePath st
  && match pipelineInEdit st with Some _ => true | None => false end.

(** A handler is the list of its effects, given how the request it sends
    settles. [run] of [useAsync] only records whether a request is
    pending, which the view reads as [isOperating]. *)

Section Handlers.

Variable unicodeToLowerCase : jsstring -> jsstring.
Variable projectUuid : jsstring.

(** The effect hook on [[pipelines, isCreateDialogOpen]]. *)
Definition onCreateDialogOpened (st : state) : state :=
  match pipelines st with
  | Some ps =>
      if isCreateDialogOpen st then
        let newName := getValidNewPipelineName ps in
        {| pipelines := pipelines st;
           pipelineInEdit := pipelineInEdit st;
           isCreateDialogOpen := isCreateDialogOpen st;
           isEditingPipelinePath := isEditingPipelinePath st;
           createPipelineName := newName;
           createPipelinePath := getPathFromName unicodeToLowerCase newName |}
      else st
  | None => st
  end.

Definition requestDeletePipelines (pipelineUuid : jsstring) : request :=
  {| method := DELETE;
     url := js "/async/pipelines/delete/" ++ projectUuid ++ js "/"
            ++ pipelineUuid;
     body := [] |}.

(** How one request of a batch settles: when, and how. The text of a
    rejection is what [`${e}`] renders. *)
Inductive settlement : Type :=
| Resolves (time : nat)
| Rejects (time : nat) (reason : jsstring).

(** [Promise.all]: fulfilled when every promise is, otherwise rejected
    with the reason of the promise that rejects first. *)
Fixpoint firstRejection (l : list settlement) : option (nat * jsstring) :=
  match l with
  | [] => None
  | Resolves _ :: l' => firstRejection l'
  | Rejects t e :: l' =>
      match firstRejection l' with
      | Some (t', e') => if (t' <? t)%nat then Some (t', e') else Some (t, e)
      | None => Some (t, e)
      end
  end.

(** [deletePipelines] opens the confirmation dialog ... *)
Definition deletePipelines (pipelineUuids : list jsstring) : list effect :=
  [ SetConfirm (js "Warning")
      (js "Are you certain that you want to delete this pipeline? (This cannot be undone.)") ].

(** ... and this is the callback it hands over, run when the user
    confirms; each selected uuid comes with the way its request
    settles. *)
Definition onConfirmDelete (selected : list (jsstring * settlement))
  : list effect :=
  List.map (fun s => Fetch (requestDeletePipelines (fst s))) selected
  ++ match firstRejection (List.map snd selected) with
     | None => [RequestFetchPipelines; Resolve true]
     | Some (_, e) =>
         [SetAlert (js "Error") (Some (js "Failed to delete pipeline: " ++ e));
          Resolve false]
     end.

Definition onCloseEditPipelineModal : list effect :=
  [SetIsEditingPipelinePath false].

Definition onSubmitEditPipelinePathModal (st : state) (o : outcome)
  : list effect :=
  match pipelineInEdit st with
  | None => []
  | Some pipelineInEdit =>
      if negb (endsWith (editPath pipelineInEdit) (js ".orchest")) then
        [SetAlert (js "Error")
           (Some (js "The path should end in the .orchest extension."))]
      else
        [Fetch {| method := PUT;
                  url := js "/async/pipelines/" ++ projectUuid ++ js "/"
                         ++ editUuid pipelineInEdit;
                  body := [(js "path", editPath pipelineInEdit)] |}]
        ++ match o with
           | Fulfilled => [RequestFetchPipelines]
           | Rejected e =>
               match responseText e with
               | JsonValue _ code =>
                   [setAlertValue (js "Error")
                      (getProperty
                         (getErrorMessages (editPath pipelineInEdit)) code)]
               | NotJson | JsonNull => [ConsoleError]
               end
           end
        ++ onCloseEditPipelineModal
  end.

Definition onSubmitCreatePipeline (st : state) (o : outcome) : list effect :=
  let pipelineName := createPipelineName st in
  let pipelinePath := createPipelinePath st in
  match pipelineName with
  | [] => [SetAlert (js "Error") (Some (js "Please enter a name."))]
  | _ :: _ =>
      if match pipelinePath with [] => true | _ :: _ => false end
         || streq pipelinePath (js ".orchest")
      then
        [SetAlert (js "Error")
           (Some (js "Please enter the path for the pipeline."))]
      else if negb (endsWith pipelinePath (js ".orchest")) then
        [SetAlert (js "Error")
           (Some (js "The path should end in the .orchest extension."))]
      else
        [Fetch {| method := POST;
                  url := js "/async/pipelines/create/" ++ projectUuid;
                  body := [(js "name", pipelineName);
                           (js "pipeline_path", pipelinePath)] |};
         SetIsCreateDialogOpen false]
        ++ match o with
           | Fulfilled => [RequestFetchPipelines]
           | Rejected response =>
               if negb (isCanceled response) then
                 match responseText response with
                 | JsonValue message _ =>
                     [SetAlert (js "Error")
                        (Some (js "Could not create pipeline. " ++ message))]
                 | NotJson | JsonNull =>
                     [SetAlert (js "Error")
                        (Some (js "Could not create pipeline. Reason unknown."))]
                 end
               else []
           end
  end.

Definition onCloseCreatePipelineModal : list effect :=
  [SetIsCreateDialogOpen false].

Definition onEditClick (uuid path : jsstring) : list effect :=
  [SetIsEditingPipelinePath true;
   SetPipelineInEdit {| editUuid := uuid; editPath := path |}].

Definition onCreateClick : list effect := [SetIsCreateDialogOpen true].

(** [onChange] of the name field, of the path field and of the path field
    of the rename dialog. *)
Definition onChangePipelineName (value : jsstring) (st : state) : state :=
  {| pipelines := pipelines st;
     pipelineInEdit := pipelineInEdit st;
     isCreateDialogOpen := isCreateDialogOpen st;
     isEditingPipelinePath := isEditingPipelinePath st;
     createPipelineName := value;
     createPipelinePath := getPathFromName unicodeToLowerCase value |}.

Definition onChangePipelinePath (value : jsstring) (st : state) : state :=
  {| pipelines := pipelines st;
     pipelineInEdit := pipelineInEdit st;
     isCreateDialogOpen := isCreateDialogOpen st;
     isEditingPipelinePath := isEditingPipelinePath st;
     createPipelineName := createPipelineName st;
     createPipelinePath := value |}.

Definition onChangeEditPath (newPath : jsstring) (st : state) : state :=
  {| pipelines := pipelines st;
     pipelineInEdit :=
       match pipelineInEdit st with
       | Some current => Some {| editUuid := editUuid current; editPath := newPath |}
       | None =>
           (* [{...null, path: newPath}] has no uuid; the request template
              renders it as "undefined" *)
           Some {| editUuid := js "undefined"; editPath := newPath |}
       end;
     isCreateDialogOpen := isCreateDialogOpen st;
     isEditingPipelinePath := isEditingPipelinePath st;
     createPipelineName := createPipelineName st;
     createPipelinePath := createPipelinePath st |}.

End Handlers.

End PipelineList.

(** ** edit-job-view/LoadParametersDialog.tsx *)

Module LoadParametersDialog.

(** The class [[^\/]]. *)
Definition notSlash (c : codeUnit) : bool := negb (N.eqb c 47).

(** [/\/?[^\/]*.orchest$/] *)
Definition cwdRegExp : regex :=
  Seq (Opt (lit (js "/")))
      (Seq (Star notSlash)
           (Seq (Chr anyChar) (Seq (lit (js "orchest")) Eol))).

(** [pipeline?.path.replace(/\/?[^\/]*.orchest$/, "/")]; the argument is
    the path of the fetched pipeline, [None] while there is none. *)
Definition pipelineCwd (pipelinePath : option jsstring) : option jsstring :=
  match pipelinePath with
  | Some p => Some (replace cwdRegExp (js "/") p)
  | None => None
  end.

(** The dialog keeps the selected path, the empty string at first; the
    file picker changes it and the form submits it. [doesFileExist] is
    what [useCheckFileValidity] last reported for the path and the [json]
    extension. *)
Record state : Type := { selectedPath : jsstring }.

Definition initialState : state := {| selectedPath := [] |}.

Inductive event : Type :=
| ChangeFilePath (value : jsstring)   (* [onChangeFilePath], i.e. [setSelectedPath] *)
| FileValidity (doesFileExist : bool)
| Submit.

Inductive effect : Type :=
| PreventDefault
| StopPropagation
| OnSubmit (value : jsstring).

Definition step (st : state) (ev : event) : state * list effect :=
  match ev with
  | ChangeFilePath value => ({| selectedPath := value |}, [])
  | FileValidity _ => (st, [])
  | Submit => (st, [PreventDefault; StopPropagation; OnSubmit (selectedPath st)])
  end.

Fixpoint runEvents (st : state) (evs : list event) : state * list effect :=
  match evs with
  | [] => (st, [])
  | ev :: evs' =>
      let '(st1, out1) := step st ev in
      let '(st2, out2) := runEvents st1 evs' in
      (st2, out1 ++ out2)
  end.

End LoadParametersDialog.


(** ** What the specification says, in its own words *)

Unset Implicit Arguments.

Module Spec.

Import Number PipelineList.
Local Open Scope Z_scope.

(** The longest prefix of [s] whose code units all satisfy [p]. *)
Fixpoint takeWhile (p : codeUnit -> bool) (s : jsstring) : jsstring :=
  match s with
  | c :: s' => if p c then c :: takeWhile p s' else []
  | [] => []
  end.

(** The number that a string of decimal digits writes. *)
Definition digitsVal (ds : jsstring) : Z :=
  fold_left (fun acc c => 10 * acc + (Z.of_N c - 48)) ds 0.

(** What follows the base name, if [name] begins with it in any letter
    case; 77, 97, 105 and 110 are the letters of "Main". *)
Definition afterBase (name : jsstring) : option jsstring :=
  match name with
  | m :: a :: i :: n :: tail =>
      if eqIgnoreCase 77%N m && eqIgnoreCase 97%N a
         && eqIgnoreCase 105%N i && eqIgnoreCase 110%N n
      then Some tail else None
  | _ => None
  end.

(** The digits [N] of a name matching "Main( N)?": those after "Main " up
    to the first code unit that is not a digit; none if no digit follows. *)
Definition suffixDigits (tail : jsstring) : jsstring :=
  match tail with
  | sp :: tail' => if (sp =? 32)%N then takeWhile isDigit tail' else []
  | [] => []
  end.

(** The numeric suffix of a matching name, a missing suffix counting as 0;
    [None] for a name that does not match. *)
Definition numericSuffix (name : jsstring) : option Z :=
  match afterBase name with
  | Some tail => Some (digitsVal (suffixDigits tail))
  | None => None
  end.

(** The suffixes of the existing names that match. *)
Definition suffixes (pipelines : list PipelineMetaData) : list Z :=
  flat_map (fun p => match numericSuffix (name p) with
                     | Some n => [n]
                     | None => []
                     end) pipelines.

(** Section 4.1: "Main" if nothing matches, otherwise "Main <N+1>" for
    the largest suffix [N], in exact integer arithmetic. *)
Definition proposedName (pipelines : list PipelineMetaData) : jsstring :=
  match suffixes pipelines with
  | [] => js "Main"
  | n :: ns => js "Main " ++ decimal (fold_right Z.max n ns + 1)
  end.

(** Numbers up to [Number.MAX_SAFE_INTEGER]. *)
Definition safeInteger (n : Z) : Prop := n < 2 ^ 53.

(** A name that is exactly "Main" or "Main N" in any letter case. *)
Definition isDefaultName (name : jsstring) : bool :=
  match afterBase name with
  | Some [] => true
  | Some (sp :: d :: ds) => (sp =? 32)%N && isDigit d && forallb isDigit ds
  | _ => false
  end.

(** The final component of a path contains no slash. *)
Definition noSlash (f : jsstring) : Prop := Forall (fun c => c <> 47%N) f.

(** What the create flow is said to reject before any request. *)
Definition invalidCreate (st : state) : Prop :=
  createPipelineName st = []
  \/ createPipelinePath st = []
  \/ createPipelinePath st = js ".orchest"
  \/ isPathTaken st = true
  \/ endsWith (createPipelinePath st) (js ".orchest") = false.

(** A request of a batch that is rejected. *)
Definition rejects (s : settlement) : bool :=
  match s with Rejects _ _ => true | Resolves _ => false end.

(** *** Notions used in the proofs *)

(** Capture 1 of [regExp] on what follows the base name. *)
Definition captured (tail : jsstring) : option jsstring :=
  match tail with
  | sp :: d :: t =>
      if (sp =? 32)%N && isDigit d
      then Some (sp :: d :: takeWhile isDigit t) else None
  | _ => None
  end.

(** One step of the reduction of [getValidNewPipelineName], on exact
    integers. *)
Definition largerSuffix (a : Z) (p : PipelineMetaData) : Z :=
  match numericSuffix (name p) with
  | Some n => Z.max a n
  | None => a
  end.

(** The number that decimal digits write, least significant first. *)
Definition valueRev (l : jsstring) : Z :=
  fold_right (fun c acc => 10 * acc + (Z.of_N c - 48)) 0 l.

(** The part of a default name's path between "main" and ".orchest". *)
Definition pathTail (tail : jsstring) : jsstring :=
  match tail with
  | [] => []
  | _ :: ds => 95%N :: ds
  end.

(** *** Sample inputs *)

Definition pipelineNamed (n p : string) : PipelineMetaData :=
  {| name := js n; path := js p; uuid := js "uuid" |}.

Definition existing (p : string) : PipelineMetaData :=
  {| name := js "Main"; path := js p; uuid := js "uuid-1" |}.

(** A create dialog filled in with [n] and [p], over the pipelines [ps]. *)
Definition createForm (ps : list PipelineMetaData) (n p : string) : state :=
  {| pipelines := Some ps;
     pipelineInEdit := None;
     isCreateDialogOpen := true;
     isEditingPipelinePath := true;
     createPipelineName := js n;
     createPipelinePath := js p |}.

(** A rename dialog for the pipeline [u] with [p] typed in. *)
Definition renameForm (u p : string) : state :=
  {| pipelines := Some [];
     pipelineInEdit := Some {| editUuid := js u; editPath := js p |};
     isCreateDialogOpen := false;
     isEditingPipelinePath := true;
     createPipelineName := INITIAL_PIPELINE_NAME;
     createPipelinePath := INITIAL_PIPELINE_PATH |}.

(** A response whose body is an object with the given [code] and no
    [message]. *)
Definition serverError (code : string) : outcome :=
  Rejected {| isCanceled := false;
              responseText := JsonValue (js "undefined") (js code) |}.

End Spec.

Module DialogSpec.

Import LoadParametersDialog.

(** The path that the picker chose last, [p0] if it chose none. *)
Definition chosen (evs : list event) (p0 : jsstring) : jsstring :=
  fold_left (fun p ev => match ev with ChangeFilePath v => v | _ => p end)
            evs p0.

(** [.orchest$], the part of the pattern after the iteration. *)
Definition tailRegExp : regex :=
  Seq (Chr anyChar) (Seq (lit (js "orchest")) Eol).

(** The continuation of the iteration in [cwdRegExp]. *)
Definition afterStar (st : mstate) : option mstate :=
  run tailRegExp st (fun st' => Some st').

End DialogSpec.

(** ** The rest of components/PipelineList.tsx *)

Module PipelineView.

Import Number PipelineList.
Local Open Scope Z_scope.

(** [s.startsWith(pat)] and [s.indexOf(pat)]: the index of the first
    occurrence, -1 if there is none. *)
Fixpoint startsWith (s pat : jsstring) : bool :=
  match pat, s with
  | [], _ => true
  | p :: pat', c :: s' => N.eqb c p && startsWith s' pat'
  | _ :: _, [] => false
  end.

Fixpoint indexOfFrom (pat : jsstring) (i : Z) (s : jsstring) : Z :=
  if startsWith s pat then i
  else
    match s with
    | [] => -1
    | _ :: s' => indexOfFrom pat (i + 1) s'
    end.

Definition indexOf (s pat : jsstring) : Z := indexOfFrom pat 0 s.

(** *** PipelinePathTextField *)

Inductive fieldEffect : Type :=
| Focus
| SetSelectionRange (selectionStart selectionEnd : Z).

(** The effect hook on [[value]]: [hasInput] says whether
    [pathInputRef.current] is set, [value] is [None] while
    [pipelineInEdit?.path] is undefined, [initialized] is
    [initializedRef.current]. The result is the new [initializedRef.current]
    and what is done to the input element. *)
Definition pathFieldEffect (hasInput : bool) (value : option jsstring)
           (initialized : bool) : bool * list fieldEffect :=
  match value with
  | Some (c :: v) =>
      if hasInput && negb initialized then
        (true,
         [Focus;
          SetSelectionRange (indexOf (c :: v) (js ".orchest"))
                            (indexOf (c :: v) (js ".orchest"))])
      else (initialized, [])
  | Some [] | None => (initialized, [])
  end.

(** The hook over the renders of one mounted field, each with its
    [hasInput] and [value]. *)
Fixpoint pathFieldRenders (renders : list (bool * option jsstring))
         (initialized : bool) : bool * list fieldEffect :=
  match renders with
  | [] => (initialized, [])
  | (hasInput, value) :: renders' =>
      let '(i1, out1) := pathFieldEffect hasInput value initialized in
      let '(i2, out2) := pathFieldRenders renders' i1 in
      (i2, out1 ++ out2)
  end.

(** *** pipelineRows *)

Record PipelineRowData : Type := {
  rowName : jsstring;
  rowPath : jsstring;
  rowUuid : jsstring;
  sessionStatus : jsstring
}.

Section Rows.

(** [getSession({pipelineUuid, projectUuid})?.status]: [None] when there
    is no session or it has no status. *)
Variable getSession : jsstring -> jsstring -> option jsstring.
Variable projectUuid : jsstring.

Definition pipelineRows (pipelines : option (list PipelineMetaData))
  : list PipelineRowData :=
  List.map
    (fun pipeline =>
       {| rowName := name pipeline;
          rowPath := path pipeline;
          rowUuid := uuid pipeline;
          sessionStatus :=
            match getSession (uuid pipeline) projectUuid with
            | Some (c :: status) => c :: status
            | Some [] | None => []
            end |})
    (match pipelines with Some ps => ps | None => [] end).

End Rows.

(** The form of the create dialog. It is submitted through its submit
    button, by a click or by Enter in one of its fields, and a disabled
    button submits nothing; [onSubmit] then calls the handler
    ([preventDefault] and [stopPropagation] are left out). *)
Definition onSubmitCreateForm (projectUuid : jsstring) (st : state)
           (isOperating : bool) (o : outcome) : list effect :=
  if createButtonDisabled st isOperating then []
  else onSubmitCreatePipeline projectUuid st o.

(** [pipelineRows.some((row) => row.path === state.createPipelinePath)] *)
Definition rowsPathTaken (rows : list PipelineRowData) (st : state) : bool :=
  existsb (fun row => streq (rowPath row) (createPipelinePath st)) rows.

End PipelineView.

(** ** Further notions for the statements below *)

Module MoreSpec.

Import Number PipelineList Spec.
Local Open Scope Z_scope.

(** The name begins with the base name in some letter case. *)
Definition matchesBase (name : jsstring) : bool :=
  match afterBase name with Some _ => true | None => false end.

Definition notNaN (x : number) : Prop := x <> NaN.

(** The effects of [onSubmitCreatePipeline] once its request has settled. *)
Definition createSettled (o : outcome) : list effect :=
  match o with
  | Fulfilled => [RequestFetchPipelines]
  | Rejected response =>
      if negb (isCanceled response) then
        match responseText response with
        | JsonValue message _ =>
            [SetAlert (js "Error")
               (Some (js "Could not create pipeline. " ++ message))]
        | NotJson | JsonNull =>
            [SetAlert (js "Error")
               (Some (js "Could not create pipeline. Reason unknown."))]
        end
      else []
  end.

Definition createRequest (projectUuid pipelineName pipelinePath : jsstring)
  : request :=
  {| method := POST;
     url := js "/async/pipelines/create/" ++ projectUuid;
     body := [(js "name", pipelineName); (js "pipeline_path", pipelinePath)] |}.

Definition renameRequest (projectUuid pipelineUuid pipelinePath : jsstring)
  : request :=
  {| method := PUT;
     url := js "/async/pipelines/" ++ projectUuid ++ js "/" ++ pipelineUuid;
     body := [(js "path", pipelinePath)] |}.

(** Three existing pipelines: one named freely, one by default, and one
    whose path is the next default path. *)
Definition threePipelines : list PipelineMetaData :=
  [pipelineNamed "Train" "train.orchest";
   pipelineNamed "Main 1" "main_1.orchest";
   pipelineNamed "main_2" "main_2.orchest"].

(** What [getPathFromName] makes of one code unit of an ASCII name. *)
Definition pathChar (c : codeUnit) : codeUnit :=
  if isNonWordChar (asciiLower c) then 95%N else asciiLower c.

(** The codes that [getErrorMessages] has a message for. *)
Definition knownCodes : list jsstring :=
  [js "0"; js "1"; js "2"; js "3"; js "4"; js "5"; js "6"].

Definition isResolve (e : effect) : bool :=
  match e with Resolve _ => true | _ => false end.

(** A render in which the path field can take the focus: the input
    element is there and the value is not empty. *)
Definition eligible (r : bool * option jsstring) : bool :=
  fst r && match snd r with Some (_ :: _) => true | _ => false end.

(** Typing [edits] into the path field of the rename dialog, one value
    after the other. *)
Definition typeEditPath (edits : list jsstring) (st : state) : state :=
  fold_left (fun s v => onChangeEditPath v s) edits st.

(** No tail of the string is one code unit followed by "orchest". *)
Definition noTail (s : jsstring) : Prop :=
  forall k c, skipn k s <> c :: js "orchest".

(** A string with [sub] somewhere in it. *)
Definition occursIn (sub s : jsstring) : Prop :=
  exists a b, s = a ++ sub ++ b.

End MoreSpec.

(** ** Facts about the string and pattern primitives *)

Module JSFacts.

Import Spec.

Lemma streq_refl (a : jsstring) : streq a a = true.
Proof.
  induction a as [|x a IH]; simpl; [reflexivity|].
  now rewrite N.eqb_refl, IH.
Qed.

Lemma streq_eq (a b : jsstring) : streq a b = true <-> a = b.
Proof.
  split.
  - revert b. induction a as [|x a IH]; intros [|y b] H; simpl in H;
      try discriminate; [reflexivity|].
    apply andb_true_iff in H as [Hx Hab].
    apply N.eqb_eq in Hx. apply IH in Hab. now subst.
  - intros ->. apply streq_refl.
Qed.

Lemma endsWith_app (a suffix : jsstring) : endsWith (a ++ suffix) suffix = true.
Proof.
  unfold endsWith. rewrite length_app.
  replace (length a + length suffix - length suffix)%nat with (length a + 0)%nat by lia.
  rewrite skipn_app, Nat.add_0_r, skipn_all.
  replace (length a - length a)%nat with 0%nat by lia. simpl.
  rewrite streq_refl, andb_true_r.
  apply Nat.leb_le. lia.
Qed.

(** *** The matcher *)

(** A greedy iteration whose continuation cannot fail takes the longest
    run. *)
Lemma star_total (R : Type) (p : codeUnit -> bool) (k : mstate -> option R)
      (s : jsstring) :
  (forall st, k st <> None) ->
  forall i c,
    star p i s c k
    = k (MState (i + length (takeWhile p s))
                (skipn (length (takeWhile p s)) s) c).
Proof.
  intros Hk. induction s as [|x s IH]; intros i c; simpl.
  - now rewrite Nat.add_0_r.
  - destruct (p x); simpl.
    + rewrite IH. replace (S i + length (takeWhile p s))%nat
        with (i + S (length (takeWhile p s)))%nat by lia.
      destruct (k _) eqn:E; [reflexivity|]. now apply Hk in E.
    + now rewrite Nat.add_0_r.
Qed.

(** Skipping a run of the class is sound when the rest then matches. *)
Lemma star_skip (R : Type) (p : codeUnit -> bool) (k : mstate -> option R)
      (u v : jsstring) (x : R) :
  forallb p u = true ->
  forall i c,
    star p (i + length u) v c k = Some x ->
    star p i (u ++ v) c k = Some x.
Proof.
  induction u as [|a u IH]; intros Hu i c H; simpl in *.
  - now rewrite Nat.add_0_r in H.
  - apply andb_true_iff in Hu as [Ha Hu]. rewrite Ha.
    rewrite (IH Hu (S i) c); [reflexivity|].
    now replace (S i + length u)%nat with (i + S (length u))%nat by lia.
Qed.

(** The iteration fails when the continuation fails after every run of
    the class that it can take. *)
Lemma star_none (R : Type) (p : codeUnit -> bool) (k : mstate -> option R)
      (s : jsstring) :
  forall i c,
    (forall j, (j <= length (takeWhile p s))%nat ->
               k (MState (i + j) (skipn j s) c) = None) ->
    star p i s c k = None.
Proof.
  induction s as [|x s IH]; intros i c H; simpl in *.
  - specialize (H 0%nat (Nat.le_refl _)). now rewrite Nat.add_0_r in H.
  - destruct (p x) eqn:Hx; simpl in H.
    + rewrite IH.
      * specialize (H 0%nat (Nat.le_0_l _)). now rewrite Nat.add_0_r in H.
      * intros j Hj. specialize (H (S j) (proj1 (Nat.succ_le_mono _ _) Hj)).
        simpl in H. now replace (S i + j)%nat with (i + S j)%nat by lia.
    + specialize (H 0%nat (Nat.le_refl _)). now rewrite Nat.add_0_r in H.
Qed.

Lemma execFrom_unfold (r : regex) (i : nat) (s : jsstring) :
  execFrom r i s
  = match run r (MState i s None) (fun st => Some st) with
    | Some st' => Some (MatchResult i (firstn (pos st' - i) s) (cap st'))
    | None =>
        match s with
        | [] => None
        | _ :: s' => execFrom r (S i) s'
        end
    end.
Proof. destruct s; reflexivity. Qed.

(** A pattern that begins with [^] matches at index 0 or nowhere. *)
Lemma execFrom_Bol (r : regex) (s : jsstring) :
  forall i, i <> 0%nat -> execFrom (Seq Bol r) i s = None.
Proof.
  induction s as [|x s IH]; intros i Hi; simpl;
    destruct i as [|i]; try congruence; simpl.
  - reflexivity.
  - apply IH. lia.
Qed.

(** Searching for one code unit of a class. *)
Lemma execFrom_Chr_none (p : codeUnit -> bool) (s : jsstring) :
  forallb (fun c => negb (p c)) s = true ->
  forall i, execFrom (Chr p) i s = None.
Proof.
  induction s as [|x s IH]; intros H i; simpl in *; [reflexivity|].
  apply andb_true_iff in H as [Hx Hs].
  apply negb_true_iff in Hx. rewrite Hx. now apply IH.
Qed.

Lemma execFrom_Chr_some (p : codeUnit -> bool) (u t : jsstring) (c : codeUnit) :
  forallb (fun c => negb (p c)) u = true ->
  p c = true ->
  forall i,
    execFrom (Chr p) i (u ++ c :: t)
    = Some (MatchResult (i + length u) [c] None).
Proof.
  induction u as [|x u IH]; intros Hu Hc i; cbn -[Nat.sub] in *.
  - rewrite Hc. cbn -[Nat.sub]. rewrite Nat.add_0_r.
    replace (S i - i)%nat with 1%nat by lia. reflexivity.
  - apply andb_true_iff in Hu as [Hx Hu].
    apply negb_true_iff in Hx. rewrite Hx.
    rewrite (IH Hu Hc). f_equal. f_equal. lia.
Qed.

Lemma split_at_first (p : codeUnit -> bool) (s : jsstring) :
  forallb (fun c => negb (p c)) s = true
  \/ exists u c t, s = u ++ c :: t
                   /\ forallb (fun c => negb (p c)) u = true /\ p c = true.
Proof.
  induction s as [|x s IH]; [now left|].
  destruct (p x) eqn:Hx.
  - right. exists [], x, s. now repeat split.
  - destruct IH as [IH | (u & c & t & -> & Hu & Hc)].
    + left. simpl. now rewrite Hx, IH.
    + right. exists (x :: u), c, t. repeat split; trivial.
      simpl. now rewrite Hx, Hu.
Qed.

(** Replacing every code unit of a class, as [/[class]/g] does. *)
Lemma replaceAllFrom_Chr (p : codeUnit -> bool) (rep : jsstring) :
  forall fuel s i,
    (length s < fuel)%nat ->
    replaceAllFrom fuel (Chr p) rep i s
    = flat_map (fun c => if p c then rep else [c]) s.
Proof.
  induction fuel as [|fuel IH]; intros s i Hlen; [lia|].
  simpl. destruct (split_at_first p s) as [Hs | (u & c & t & -> & Hu & Hc)].
  - rewrite (execFrom_Chr_none p s Hs).
    clear -Hs. induction s as [|x s IH]; simpl in *; [reflexivity|].
    apply andb_true_iff in Hs as [Hx Hs]. apply negb_true_iff in Hx.
    rewrite Hx. simpl. now rewrite <- IH.
  - rewrite (execFrom_Chr_some p u t c Hu Hc). cbn [index matched].
    replace (i + length u - i)%nat with (length u + 0)%nat by lia.
    rewrite firstn_app_2, skipn_app, Nat.add_0_r, skipn_all.
    replace (length u - length u)%nat with 0%nat by lia.
    cbn [firstn skipn app length]. rewrite app_nil_r.
    rewrite flat_map_app. cbn [flat_map]. rewrite Hc.
    rewrite IH by (rewrite length_app in Hlen; simpl in Hlen; lia).
    f_equal.
    clear -Hu. induction u as [|x u IH]; simpl in *; [reflexivity|].
    apply andb_true_iff in Hu as [Hx Hu]. apply negb_true_iff in Hx.
    rewrite Hx. simpl. now rewrite <- IH.
Qed.

Lemma replaceAll_Chr (p : codeUnit -> bool) (rep s : jsstring) :
  replaceAll (Chr p) rep s = flat_map (fun c => if p c then rep else [c]) s.
Proof. unfold replaceAll. apply replaceAllFrom_Chr. lia. Qed.

End JSFacts.

(** ** Facts about numbers and their decimal form *)

Module NumberFacts.

Import Number Spec.
Local Open Scope Z_scope.

Lemma roundNat_safe (n : Z) : n < 2 ^ 53 -> roundNat n = Num n.
Proof. intros H. unfold roundNat. apply Z.ltb_lt in H. now rewrite H. Qed.

Lemma ofZ_safe (n : Z) : 0 <= n < 2 ^ 53 -> ofZ n = Num n.
Proof.
  intros [H0 H]. unfold ofZ.
  destruct (Z.ltb_spec n 0); [lia|]. now apply roundNat_safe.
Qed.

(** 2^53 is itself a double, the first one whose successor is not. *)
Lemma ofZ_two53 : ofZ (2 ^ 53) = Num (2 ^ 53).
Proof. vm_compute. reflexivity. Qed.

Lemma ofZ_upto_two53 (n : Z) : 0 <= n <= 2 ^ 53 -> ofZ n = Num n.
Proof.
  intros H. destruct (Z.eq_dec n (2 ^ 53)) as [-> | Hn].
  - apply ofZ_two53.
  - apply ofZ_safe. lia.
Qed.

Lemma max_Num (a b : Z) : Math.max (Num a) (Num b) = Num (Z.max a b).
Proof.
  unfold Math.max, gt. destruct (Z.ltb_spec a b); f_equal; lia.
Qed.

(** *** Decimal digits *)

Lemma digitsVal_rev (l : jsstring) : digitsVal (rev l) = valueRev l.
Proof.
  unfold digitsVal, valueRev.
  rewrite <- (rev_involutive l) at 2.
  now rewrite fold_left_rev_right.
Qed.

Lemma digitsRev_value (fuel : nat) :
  forall n, 0 <= n < 2 ^ Z.of_nat fuel -> valueRev (digitsRev fuel n) = n.
Proof.
  induction fuel as [|fuel IH]; intros n Hn.
  - simpl in *. lia.
  - cbn [digitsRev valueRev fold_right].
    fold (valueRev (if n <? 10 then [] else digitsRev fuel (n / 10))).
    pose proof (Z.mod_pos_bound n 10 ltac:(lia)) as Hm.
    rewrite Z2N.id by lia.
    destruct (Z.ltb_spec n 10) as [Hlt | Hge].
    + cbn [valueRev fold_right]. rewrite Z.mod_small by lia. lia.
    + rewrite IH.
      * pose proof (Z.div_mod n 10 ltac:(lia)). lia.
      * rewrite Nat2Z.inj_succ, Z.pow_succ_r in Hn by lia.
        split; [apply Z.div_pos; lia|].
        apply Z.div_lt_upper_bound; lia.
Qed.

Lemma digitsRev_digits (fuel : nat) :
  forall n, 0 <= n -> forallb isDigit (digitsRev fuel n) = true.
Proof.
  induction fuel as [|fuel IH]; intros n Hn; [reflexivity|].
  cbn [digitsRev forallb].
  pose proof (Z.mod_pos_bound n 10 ltac:(lia)) as Hm.
  apply andb_true_iff. split.
  - unfold isDigit. apply andb_true_iff. split; apply N.leb_le; lia.
  - destruct (n <? 10); [reflexivity|]. apply IH. apply Z.div_pos; lia.
Qed.

Lemma forallb_rev (p : codeUnit -> bool) (l : jsstring) :
  forallb p (rev l) = forallb p l.
Proof.
  induction l as [|x l IH]; simpl; [reflexivity|].
  rewrite forallb_app, IH. simpl. rewrite andb_true_r. apply andb_comm.
Qed.

Lemma decimal_value (n : Z) : 0 <= n -> digitsVal (decimal n) = n.
Proof.
  intros Hn. unfold decimal. rewrite digitsVal_rev.
  apply digitsRev_value. split; [assumption|].
  rewrite Nat2Z.inj_succ, Z2Nat.id by apply Z.log2_nonneg.
  destruct (Z.eq_dec n 0) as [-> | Hz]; [reflexivity|].
  apply Z.log2_spec. lia.
Qed.

Lemma decimal_digits (n : Z) : 0 <= n -> forallb isDigit (decimal n) = true.
Proof.
  intros Hn. unfold decimal. rewrite forallb_rev.
  now apply digitsRev_digits.
Qed.

Lemma decimal_nonempty (n : Z) : decimal n <> [].
Proof.
  unfold decimal. cbn [digitsRev]. intros H.
  apply (f_equal (@List.length _)) in H.
  rewrite length_rev in H. simpl in H. lia.
Qed.

Lemma toString_safe (n : Z) :
  0 <= n <= 2 ^ 53 -> toString (Num n) = decimal n.
Proof.
  intros Hn. destruct (Z.eq_dec n (2 ^ 53)) as [-> | Hne].
  - vm_compute. reflexivity.
  - unfold toString, toStringNat.
    destruct (Z.ltb_spec n 0); [lia|].
    destruct (Z.ltb_spec n (2 ^ 53)); [reflexivity | lia].
Qed.

(** *** Runs of digits *)

Lemma takeWhile_all (p : codeUnit -> bool) (s : jsstring) :
  forallb p s = true -> takeWhile p s = s.
Proof.
  induction s as [|x s IH]; simpl; [reflexivity|].
  intros H. apply andb_true_iff in H as [Hx Hs]. rewrite Hx. now rewrite IH.
Qed.

Lemma firstn_takeWhile (p : codeUnit -> bool) (s : jsstring) :
  firstn (List.length (takeWhile p s)) s = takeWhile p s.
Proof.
  induction s as [|x s IH]; simpl; [reflexivity|].
  destruct (p x); simpl; [now rewrite IH | reflexivity].
Qed.

Lemma takeWhile_forallb (p : codeUnit -> bool) (s : jsstring) :
  forallb p (takeWhile p s) = true.
Proof.
  induction s as [|x s IH]; simpl; [reflexivity|].
  destruct (p x) eqn:Hx; simpl; [now rewrite Hx|reflexivity].
Qed.

Lemma digitsVal_step (ds : jsstring) (acc : Z) :
  fold_left (fun acc c => 10 * acc + (Z.of_N c - 48)) ds acc
  = acc * 10 ^ Z.of_nat (List.length ds) + digitsVal ds.
Proof.
  unfold digitsVal. revert acc.
  induction ds as [|d ds IH]; intros acc.
  - simpl. lia.
  - cbn [fold_left List.length]. rewrite IH, (IH (10 * 0 + _)).
    rewrite Nat2Z.inj_succ, Z.pow_succ_r by lia. lia.
Qed.

Lemma digitsVal_nonneg_from (ds : jsstring) :
  forallb isDigit ds = true ->
  forall acc, 0 <= acc ->
    0 <= fold_left (fun acc c => 10 * acc + (Z.of_N c - 48)) ds acc.
Proof.
  induction ds as [|d ds IH]; intros H acc Hacc;
    cbn [fold_left forallb] in *; [assumption|].
  apply andb_true_iff in H as [Hd Hds]. apply IH; [assumption|].
  unfold isDigit in Hd. apply andb_true_iff in Hd as [H1 H2].
  apply N.leb_le in H1. lia.
Qed.

Lemma digitsVal_nonneg (ds : jsstring) :
  forallb isDigit ds = true -> 0 <= digitsVal ds.
Proof. intros H. apply digitsVal_nonneg_from; [assumption | lia]. Qed.

End NumberFacts.

(** ** Facts about the default name *)

Module NameFacts.

Import Number Spec PipelineList JSFacts NumberFacts.
Local Open Scope Z_scope.

Ltac step_match := cbn -[N.eqb isDigit eqIgnoreCase Nat.sub].

Lemma run_regExp (name : jsstring) :
  option_map (@cap) (run regExp (MState 0 name None) (fun st => Some st))
  = option_map captured (afterBase name).
Proof.
  unfold regExp, afterBase.
  destruct name as [|m [|a [|i [|n tail]]]]; step_match;
    repeat match goal with
           | |- context [eqIgnoreCase ?x ?y] =>
               destruct (eqIgnoreCase x y); step_match
           end; try reflexivity.
  unfold captured.
  destruct tail as [|sp [|d t]]; step_match; try reflexivity.
  - destruct (32 =? sp)%N; reflexivity.
  - rewrite (N.eqb_sym sp 32). destruct (32 =? sp)%N eqn:E; step_match;
      [|reflexivity].
    destruct (isDigit d) eqn:Hd; step_match; [|reflexivity].
    rewrite star_total by discriminate. step_match.
    cbn [Nat.sub firstn]. now rewrite firstn_takeWhile.
Qed.

Lemma jsmatch_regExp (name : jsstring) :
  option_map (@group1) (jsmatch name regExp)
  = option_map captured (afterBase name).
Proof.
  rewrite <- run_regExp. unfold jsmatch.
  destruct name as [|c s]; cbn [execFrom];
    destruct (run regExp _ _) as [st|]; try reflexivity.
  cbn [option_map]. unfold regExp. now rewrite execFrom_Bol.
Qed.

Lemma isDigit_not_space (c : codeUnit) :
  isDigit c = true -> isWhiteSpace c = false.
Proof.
  unfold isDigit, isWhiteSpace. intros H.
  apply andb_true_iff in H as [H1 H2].
  apply N.leb_le in H1. apply N.leb_le in H2.
  repeat match goal with
         | |- context [(?a =? ?b)%N] => destruct (N.eqb_spec a b); [lia|]
         | |- context [(?a <=? ?b)%N] => destruct (N.leb_spec a b)
         end; try reflexivity; lia.
Qed.

Lemma trimStart_digits (ds : jsstring) :
  forallb isDigit ds = true -> trimStart ds = ds.
Proof.
  destruct ds as [|d ds]; [reflexivity|]. cbn [forallb trimStart].
  intros H. apply andb_true_iff in H as [Hd _].
  now rewrite (isDigit_not_space d Hd).
Qed.

Lemma trim_space_digits (sp : codeUnit) (ds : jsstring) :
  sp = 32%N -> forallb isDigit ds = true -> trim (sp :: ds) = ds.
Proof.
  intros -> H. unfold trim. cbn [trimStart].
  change (isWhiteSpace 32%N) with true. cbn iota.
  rewrite (trimStart_digits ds H).
  rewrite trimStart_digits by now rewrite forallb_rev.
  apply rev_involutive.
Qed.

Lemma parseDigits_digits (ds : jsstring) :
  forallb isDigit ds = true ->
  forall a, parseDigits 10 (Some a) ds
            = Some (fold_left (fun acc c => 10 * acc + (Z.of_N c - 48)) ds a).
Proof.
  induction ds as [|d ds IH]; intros H a; [reflexivity|].
  cbn [forallb] in H. apply andb_true_iff in H as [Hd Hds].
  cbn [parseDigits fold_left]. unfold digitValue. rewrite Hd.
  unfold isDigit in Hd. apply andb_true_iff in Hd as [H1 H2].
  apply N.leb_le in H1. apply N.leb_le in H2.
  destruct (Z.ltb_spec (Z.of_N d - 48) 10); [|lia].
  now apply IH.
Qed.

Lemma parseInt_digits (d : codeUnit) (ds : jsstring) :
  forallb isDigit (d :: ds) = true ->
  parseInt (d :: ds) = ofZ (digitsVal (d :: ds)).
Proof.
  intros H. unfold parseInt. rewrite (trimStart_digits _ H).
  pose proof H as H'. cbn [forallb] in H'.
  apply andb_true_iff in H' as [Hd Hds].
  assert (Hd' := Hd). unfold isDigit in Hd'.
  apply andb_true_iff in Hd' as [H1 H2].
  apply N.leb_le in H1. apply N.leb_le in H2.
  destruct (N.eqb_spec d 45%N); [lia|].
  destruct (N.eqb_spec d 43%N); [lia|].
  assert (Hx : forall x t, ds = x :: t ->
                 (d =? 48)%N && ((x =? 120)%N || (x =? 88)%N) = false).
  { intros x t ->. cbn [forallb] in Hds.
    apply andb_true_iff in Hds as [Hx _].
    unfold isDigit in Hx. apply andb_true_iff in Hx as [Hx1 Hx2].
    apply N.leb_le in Hx1. apply N.leb_le in Hx2.
    destruct (N.eqb_spec x 120%N); [lia|].
    destruct (N.eqb_spec x 88%N); [lia|].
    apply andb_false_r. }
  assert (Hgoal : parseDigits 10 None (d :: ds) = Some (digitsVal (d :: ds))).
  { cbn [parseDigits]. unfold digitValue. rewrite Hd.
    destruct (Z.ltb_spec (Z.of_N d - 48) 10); [|lia].
    rewrite (parseDigits_digits ds Hds). reflexivity. }
  destruct ds as [|x t]; [|rewrite (Hx x t eq_refl)];
    rewrite Hgoal; f_equal; lia.
Qed.
(** The number that the callback reads off a matching name. *)
Lemma currentNumber_spec (tail : jsstring) :
  match captured tail with
  | None | Some [] => Num 0
  | Some g => parseInt (trim g)
  end = ofZ (digitsVal (suffixDigits tail)).
Proof.
  unfold captured, suffixDigits.
  destruct tail as [|sp [|d t]]; [reflexivity | |].
  - destruct (sp =? 32)%N; reflexivity.
  - destruct (N.eqb_spec sp 32%N) as [-> | Hsp]; [|reflexivity].
    cbn [andb takeWhile].
    destruct (isDigit d) eqn:Hd; [|reflexivity].
    assert (Hall : forallb isDigit (d :: takeWhile isDigit t) = true).
    { cbn [forallb]. now rewrite Hd, takeWhile_forallb. }
    rewrite (trim_space_digits 32%N _ eq_refl Hall).
    now apply parseInt_digits.
Qed.

Lemma suffixDigits_digits (tail : jsstring) :
  forallb isDigit (suffixDigits tail) = true.
Proof.
  unfold suffixDigits. destruct tail as [|sp t]; [reflexivity|].
  destruct (sp =? 32)%N; [apply takeWhile_forallb | reflexivity].
Qed.

Lemma numericSuffix_nonneg (name : jsstring) (n : Z) :
  numericSuffix name = Some n -> 0 <= n.
Proof.
  unfold numericSuffix. destruct (afterBase name) as [tail|]; [|discriminate].
  intros [= <-]. apply digitsVal_nonneg, suffixDigits_digits.
Qed.

Lemma largerNumber_spec (a : Z) (p : PipelineMetaData) :
  (forall n, numericSuffix (name p) = Some n -> safeInteger n) ->
  largerNumber (Num a) p = Num (largerSuffix a p).
Proof.
  intros Hsafe. unfold largerNumber, largerSuffix.
  pose proof (jsmatch_regExp (name p)) as Hm.
  pose proof (numericSuffix_nonneg (name p)) as Hnn.
  unfold numericSuffix in *.
  destruct (jsmatch (name p) regExp) as [m|];
    destruct (afterBase (name p)) as [tail|]; try discriminate;
    [|reflexivity].
  cbn [option_map] in Hm. injection Hm as Hm. rewrite Hm.
  rewrite currentNumber_spec.
  rewrite ofZ_safe by (split; [now apply Hnn | now apply Hsafe]).
  apply max_Num.
Qed.

Lemma suffixes_cons (p : PipelineMetaData) (ps : list PipelineMetaData) :
  suffixes (p :: ps)
  = match numericSuffix (name p) with Some n => [n] | None => [] end
    ++ suffixes ps.
Proof. reflexivity. Qed.

Lemma fold_largerSuffix (ps : list PipelineMetaData) :
  forall a, fold_left largerSuffix ps a = fold_left Z.max (suffixes ps) a.
Proof.
  induction ps as [|p ps IH]; intros a; [reflexivity|].
  rewrite suffixes_cons, fold_left_app. cbn [fold_left]. rewrite IH.
  unfold largerSuffix. now destruct (numericSuffix (name p)).
Qed.

Lemma fold_max_bounds (l : list Z) (b : Z) :
  Forall (fun n => n < b) l ->
  forall a, a < b -> a <= fold_left Z.max l a < b.
Proof.
  induction 1 as [|n l Hn Hl IH]; intros a Ha; cbn [fold_left]; [lia|].
  specialize (IH (Z.max a n) ltac:(lia)). lia.
Qed.

Lemma fold_largerNumber (ps : list PipelineMetaData) :
  Forall safeInteger (suffixes ps) ->
  forall a, a < 2 ^ 53 ->
    fold_left largerNumber ps (Num a) = Num (fold_left largerSuffix ps a).
Proof.
  induction ps as [|p ps IH]; intros Hsafe a Ha; [reflexivity|].
  rewrite suffixes_cons in Hsafe. apply Forall_app in Hsafe as [Hp Hps].
  cbn [fold_left]. rewrite largerNumber_spec.
  - apply IH; [assumption|]. unfold largerSuffix.
    destruct (numericSuffix (name p)) as [n|]; [|assumption].
    apply Forall_inv in Hp. unfold safeInteger in Hp. lia.
  - intros n Hn. rewrite Hn in Hp. now apply Forall_inv in Hp.
Qed.

Lemma fold_left_max_out (ns : list Z) :
  forall n m, fold_left Z.max ns (Z.max n m) = Z.max (fold_left Z.max ns n) m.
Proof.
  induction ns as [|k ns IH]; intros n m; cbn [fold_left]; [reflexivity|].
  rewrite <- IH. f_equal. lia.
Qed.

Lemma fold_left_right_max (ns : list Z) (n : Z) :
  fold_left Z.max ns n = fold_right Z.max n ns.
Proof.
  induction ns as [|m ns IH]; cbn [fold_left fold_right]; [reflexivity|].
  rewrite fold_left_max_out, IH. apply Z.max_comm.
Qed.

Lemma fold_max_cons (n : Z) (ns : list Z) (a : Z) :
  a <= n -> fold_left Z.max (n :: ns) a = fold_right Z.max n ns.
Proof.
  intros Ha. cbn [fold_left]. rewrite Z.max_r by assumption.
  apply fold_left_right_max.
Qed.

(** The largest existing number, and the name built from it. *)
Lemma getValidNewPipelineName_safe (ps : list PipelineMetaData) :
  Forall safeInteger (suffixes ps) ->
  getValidNewPipelineName ps = proposedName ps.
Proof.
  intros Hsafe. unfold getValidNewPipelineName, proposedName.
  rewrite (fold_largerNumber ps Hsafe) by lia.
  rewrite fold_largerSuffix.
  pose proof (fold_max_bounds (suffixes ps) (2 ^ 53) Hsafe (-1) ltac:(lia)) as Hb.
  assert (Hnn : Forall (fun n => 0 <= n) (suffixes ps)).
  { clear. induction ps as [|p ps IH]; [constructor|].
    rewrite suffixes_cons. apply Forall_app. split; [|assumption].
    destruct (numericSuffix (name p)) as [n|] eqn:E; constructor; [|constructor].
    now apply (numericSuffix_nonneg (name p)). }
  destruct (suffixes ps) as [|n ns].
  - reflexivity.
  - apply Forall_inv in Hnn.
    rewrite fold_max_cons in * by lia.
    set (M := fold_right Z.max n ns) in *.
    assert (HM : n <= M).
    { subst M. clear. induction ns as [|k ns IH]; cbn [fold_right]; lia. }
    unfold add. rewrite ofZ_upto_two53 by lia.
    unfold gt. destruct (Z.ltb_spec 0 (M + 1)); [|lia].
    rewrite toString_safe by lia. reflexivity.
Qed.

(** *** The suffix of the proposed name *)

Lemma afterBase_Main (tail : jsstring) : afterBase (js "Main" ++ tail) = Some tail.
Proof. reflexivity. Qed.

Lemma numericSuffix_Main_decimal (m : Z) :
  0 <= m -> numericSuffix (js "Main " ++ decimal m) = Some m.
Proof.
  intros Hm. change (js "Main " ++ decimal m)
    with (js "Main" ++ 32%N :: decimal m).
  unfold numericSuffix. rewrite afterBase_Main. unfold suffixDigits.
  rewrite N.eqb_refl, takeWhile_all by now apply decimal_digits.
  now rewrite decimal_value.
Qed.

Lemma in_suffixes (ps : list PipelineMetaData) (p : PipelineMetaData) (n : Z) :
  In p ps -> numericSuffix (name p) = Some n -> In n (suffixes ps).
Proof.
  intros Hin Hn. unfold suffixes. apply in_flat_map.
  exists p. split; [assumption|]. rewrite Hn. now left.
Qed.

Lemma fold_right_max_ge (n : Z) (ns : list Z) (k : Z) :
  In k (n :: ns) -> k <= fold_right Z.max n ns.
Proof.
  induction ns as [|m ns IH]; cbn [fold_right]; intros Hin.
  - destruct Hin as [-> | []]. lia.
  - destruct Hin as [-> | [-> | Hin]].
    + specialize (IH (or_introl eq_refl)). lia.
    + lia.
    + specialize (IH (or_intror Hin)). lia.
Qed.

(** The suffix of the proposed name exceeds every existing suffix. *)
Lemma proposedName_suffix (ps : list PipelineMetaData) :
  exists m, numericSuffix (proposedName ps) = Some m
            /\ forall n, In n (suffixes ps) -> 0 <= n < m.
Proof.
  assert (Hnn : forall n, In n (suffixes ps) -> 0 <= n).
  { intros n Hin. unfold suffixes in Hin. apply in_flat_map in Hin.
    destruct Hin as (p & _ & Hin).
    destruct (numericSuffix (name p)) as [k|] eqn:E; [|destruct Hin].
    destruct Hin as [<- | []]. now apply (numericSuffix_nonneg (name p)). }
  unfold proposedName. destruct (suffixes ps) as [|n ns].
  - exists 0. split; [reflexivity | intros n []].
  - exists (fold_right Z.max n ns + 1).
    pose proof (fold_right_max_ge n ns) as Hge.
    split.
    + apply numericSuffix_Main_decimal.
      specialize (Hnn n (or_introl eq_refl)).
      specialize (Hge n (or_introl eq_refl)). lia.
    + intros k Hk. specialize (Hnn k Hk). specialize (Hge k Hk). lia.
Qed.

(** *** Paths of default names *)

Lemma eqIgnoreCase_cases (pat c : codeUnit) :
  eqIgnoreCase pat c = true ->
  c = asciiUpper pat \/ c = (asciiUpper pat + 32)%N.
Proof.
  unfold eqIgnoreCase. intros H. apply andb_true_iff in H as [_ H].
  apply N.eqb_eq in H. revert H. generalize (asciiUpper pat) as u.
  intros u. unfold asciiUpper. destruct (isLower c) eqn:Hc; [|now left].
  unfold isLower in Hc. apply andb_true_iff in Hc as [H1 _].
  apply N.leb_le in H1. right. lia.
Qed.

(** A letter of the base name, in either case: what the path keeps of it. *)
Lemma eqIgnoreCase_lower (pat c : codeUnit) :
  (pat = 77 \/ pat = 97 \/ pat = 105 \/ pat = 110)%N ->
  eqIgnoreCase pat c = true ->
  isAscii c = true /\ isNonWordChar (asciiLower c) = false
  /\ asciiLower c = asciiLower (asciiUpper pat).
Proof.
  intros Hpat H. apply eqIgnoreCase_cases in H.
  destruct Hpat as [-> | [-> | [-> | ->]]]; destruct H as [-> | ->];
    now vm_compute.
Qed.

Lemma digit_word (c : codeUnit) :
  isDigit c = true ->
  isAscii c = true /\ isNonWordChar c = false /\ asciiLower c = c.
Proof.
  unfold isAscii, isNonWordChar, isWordChar, asciiLower, isUpper, isDigit.
  intros H. rewrite H. apply andb_true_iff in H as [H1 H2].
  apply N.leb_le in H1. apply N.leb_le in H2.
  destruct (N.ltb_spec c 128); [|lia].
  destruct (N.leb_spec 65 c); [|now repeat split].
  destruct (N.leb_spec c 90); [lia | now repeat split].
Qed.

Lemma digits_path (ds : jsstring) :
  forallb isDigit ds = true ->
  forallb isAscii ds = true
  /\ flat_map (fun c => if isNonWordChar c then js "_" else [c])
              (List.map asciiLower ds) = ds.
Proof.
  induction ds as [|d ds IH]; intros H; [now split|].
  cbn [forallb] in H. apply andb_true_iff in H as [Hd Hds].
  destruct (IH Hds) as [IH1 IH2].
  destruct (digit_word d Hd) as (Ha & Hw & Hl).
  cbn [forallb List.map flat_map]. rewrite Ha, IH1, Hl, Hw, IH2. now split.
Qed.

Section Paths.

Variable unicodeToLowerCase : jsstring -> jsstring.

Lemma getPathFromName_default (x : jsstring) :
  isDefaultName x = true ->
  exists tail,
    afterBase x = Some tail
    /\ getPathFromName unicodeToLowerCase x
       = js "main" ++ pathTail tail ++ js ".orchest"
    /\ numericSuffix x
       = Some (match pathTail tail with
               | [] => 0
               | _ :: ds => digitsVal ds
               end).
Proof.
  unfold isDefaultName, numericSuffix. intros H.
  destruct (afterBase x) as [tail|] eqn:E; [|discriminate].
  exists tail. split; [reflexivity|].
  unfold afterBase in E.
  destruct x as [|m [|a [|i [|n tail']]]]; try discriminate.
  destruct (eqIgnoreCase 77%N m) eqn:Hm; [|discriminate].
  destruct (eqIgnoreCase 97%N a) eqn:Ha; [|discriminate].
  destruct (eqIgnoreCase 105%N i) eqn:Hi; [|discriminate].
  destruct (eqIgnoreCase 110%N n) eqn:Hn; [|discriminate].
  injection E as ->.
  destruct (eqIgnoreCase_lower 77%N m ltac:(tauto) Hm) as (Am & Wm & Lm).
  destruct (eqIgnoreCase_lower 97%N a ltac:(tauto) Ha) as (Aa & Wa & La).
  destruct (eqIgnoreCase_lower 105%N i ltac:(tauto) Hi) as (Ai & Wi & Li).
  destruct (eqIgnoreCase_lower 110%N n ltac:(tauto) Hn) as (An & Wn & Ln).
  assert (Htail :
    forallb isAscii tail = true
    /\ flat_map (fun c => if isNonWordChar c then js "_" else [c])
                (List.map asciiLower tail) = pathTail tail
    /\ suffixDigits tail = match pathTail tail with [] => [] | _ :: ds => ds end).
  { destruct tail as [|sp [|d ds]]; [now repeat split | discriminate |].
    apply andb_true_iff in H as [H Hds]. apply andb_true_iff in H as [Hsp Hd].
    apply N.eqb_eq in Hsp. subst sp.
    assert (Hall : forallb isDigit (d :: ds) = true).
    { cbn [forallb]. now rewrite Hd, Hds. }
    destruct (digits_path (d :: ds) Hall) as [H1 H2].
    repeat split.
    - cbn [forallb] in *. now rewrite H1.
    - cbn [List.map flat_map pathTail] in *. now rewrite H2.
    - cbn [suffixDigits pathTail]. rewrite N.eqb_refl.
      now apply takeWhile_all. }
  destruct Htail as (At & Pt & St).
  split.
  - unfold getPathFromName, toLowerCase. cbn [forallb].
    rewrite Am, Aa, Ai, An, At. cbn [andb].
    rewrite replaceAll_Chr. cbn [List.map flat_map].
    rewrite Wm, Wa, Wi, Wn, Pt.
    rewrite Lm, La, Li, Ln. reflexivity.
  - rewrite St. destruct (pathTail tail); reflexivity.
Qed.

Lemma isDefaultName_proposed (ps : list PipelineMetaData) :
  isDefaultName (proposedName ps) = true.
Proof.
  unfold proposedName. destruct (suffixes ps) as [|n ns] eqn:E; [reflexivity|].
  set (m := fold_right Z.max n ns + 1).
  assert (Hm : 0 <= m).
  { destruct (proposedName_suffix ps) as (k & _ & Hk).
    rewrite E in Hk. specialize (Hk n (or_introl eq_refl)).
    pose proof (fold_right_max_ge n ns n (or_introl eq_refl)). lia. }
  change (js "Main " ++ decimal m) with (js "Main" ++ 32%N :: decimal m).
  unfold isDefaultName. rewrite afterBase_Main.
  pose proof (decimal_digits m Hm) as Hd.
  pose proof (decimal_nonempty m) as Hne.
  destruct (decimal m) as [|d ds]; [congruence|].
  cbn [forallb] in Hd. now rewrite N.eqb_refl.
Qed.

(** Default names with one path have one suffix. *)
Lemma default_path_suffix (x y : jsstring) :
  isDefaultName x = true -> isDefaultName y = true ->
  getPathFromName unicodeToLowerCase x = getPathFromName unicodeToLowerCase y ->
  numericSuffix x = numericSuffix y.
Proof.
  intros Hx Hy Heq.
  destruct (getPathFromName_default x Hx) as (t1 & _ & P1 & S1).
  destruct (getPathFromName_default y Hy) as (t2 & _ & P2 & S2).
  rewrite P1, P2 in Heq. apply app_inv_head in Heq.
  apply app_inv_tail in Heq. now rewrite S1, S2, Heq.
Qed.

Lemma proposed_path_fresh (ps : list PipelineMetaData) (p : PipelineMetaData) :
  In p ps -> isDefaultName (name p) = true ->
  getPathFromName unicodeToLowerCase (name p)
  <> getPathFromName unicodeToLowerCase (proposedName ps).
Proof.
  intros Hin Hp Heq.
  apply default_path_suffix in Heq;
    [|assumption | apply isDefaultName_proposed].
  destruct (proposedName_suffix ps) as (m & Hm & Hlt).
  rewrite Hm in Heq.
  specialize (Hlt m (in_suffixes ps p m Hin Heq)). lia.
Qed.

End Paths.

Lemma proposed_name_fresh (ps : list PipelineMetaData) (p : PipelineMetaData) :
  In p ps -> name p <> proposedName ps.
Proof.
  intros Hin Heq.
  destruct (proposedName_suffix ps) as (m & Hm & Hlt).
  rewrite <- Heq in Hm.
  specialize (Hlt m (in_suffixes ps p m Hin Hm)). lia.
Qed.

End NameFacts.

(** ** Facts about the working-directory pattern *)

Module CwdFacts.

Import Spec DialogSpec JSFacts LoadParametersDialog.

Ltac step_cwd := cbn -[N.eqb anyChar notSlash Nat.add Nat.sub].

(** The tail takes exactly eight code units. *)
Lemma afterStar_length (st : mstate) :
  length (rest st) <> 8%nat -> afterStar st = None.
Proof.
  destruct st as [i s c]. unfold afterStar, tailRegExp. cbn [rest].
  intros Hlen.
  destruct s as [|c0 [|c1 [|c2 [|c3 [|c4 [|c5 [|c6 [|c7 [|c8 s]]]]]]]]];
    step_cwd;
    repeat match goal with
           | |- (if ?b then _ else _) = None => destruct b
           end; try reflexivity.
  cbn in Hlen. congruence.
Qed.

Lemma takeWhile_notSlash_length (a b : jsstring) :
  (length (takeWhile notSlash (a ++ 47%N :: b)) <= length a)%nat.
Proof.
  induction a as [|x a IH]; cbn [app takeWhile length].
  - reflexivity.
  - destruct (notSlash x); cbn [length]; lia.
Qed.

(** With a slash ahead that is followed by eight code units or more, the
    iteration cannot reach the end of the subject. *)
Lemma star_before_slash (a b : jsstring) (i : nat) (c : option jsstring) :
  (8 <= length b)%nat ->
  star notSlash i (a ++ 47%N :: b) c afterStar = None.
Proof.
  intros Hb. apply star_none. intros j Hj.
  apply afterStar_length. cbn [rest].
  pose proof (takeWhile_notSlash_length a b).
  rewrite length_skipn, length_app. cbn [length]. lia.
Qed.

(** The pattern, unfolded once: the optional slash, then the iteration. *)
Lemma run_cwdRegExp (st : mstate) :
  run cwdRegExp st (fun st' => Some st')
  = match
      match rest st with
      | c :: s' =>
          if (47 =? c)%N
          then star notSlash (S (pos st)) s' (cap st) afterStar
          else None
      | [] => None
      end
    with
    | Some x => Some x
    | None => star notSlash (pos st) (rest st) (cap st) afterStar
    end.
Proof. reflexivity. Qed.

Lemma cwd_no_match (a b : jsstring) (i : nat) :
  a <> [] -> (8 <= length b)%nat ->
  run cwdRegExp (MState i (a ++ 47%N :: b) None) (fun st => Some st) = None.
Proof.
  intros Ha Hb. rewrite run_cwdRegExp. cbn [rest pos cap].
  rewrite (star_before_slash a b i None Hb).
  destruct a as [|x a]; [congruence|]. cbn [app].
  destruct (47 =? x)%N; [|reflexivity].
  now rewrite (star_before_slash a b (S i) None Hb).
Qed.

Lemma forallb_notSlash (f : jsstring) :
  noSlash f -> forallb notSlash f = true.
Proof.
  induction 1 as [|x f Hx Hf IH]; [reflexivity|].
  cbn [forallb]. rewrite IH, andb_true_r. unfold notSlash.
  now apply negb_true_iff, N.eqb_neq.
Qed.

(** From the start of the final component the iteration runs to the end
    and gives back the extension. *)
Lemma star_final_component (f : jsstring) (i : nat) :
  noSlash f ->
  star notSlash i (f ++ js ".orchest") None afterStar
  = Some (MState (i + length f + 8) [] None).
Proof.
  intros Hf. apply star_skip; [now apply forallb_notSlash|].
  unfold afterStar, tailRegExp. cbn -[Nat.add].
  do 2 f_equal. lia.
Qed.

Lemma cwd_match_slash (f : jsstring) (i : nat) :
  noSlash f ->
  run cwdRegExp (MState i (47%N :: f ++ js ".orchest") None) (fun st => Some st)
  = Some (MState (S i + length f + 8) [] None).
Proof.
  intros Hf. rewrite run_cwdRegExp. cbn [rest pos cap].
  rewrite N.eqb_refl. now rewrite (star_final_component f (S i) Hf).
Qed.

Lemma cwd_match_start (f : jsstring) (i : nat) :
  noSlash f ->
  run cwdRegExp (MState i (f ++ js ".orchest") None) (fun st => Some st)
  = Some (MState (i + length f + 8) [] None).
Proof.
  intros Hf. rewrite run_cwdRegExp. cbn [rest pos cap].
  rewrite (star_final_component f i Hf).
  destruct f as [|x f]; [reflexivity|]. cbn [app].
  apply Forall_inv in Hf. apply not_eq_sym in Hf.
  apply N.eqb_neq in Hf. now rewrite Hf.
Qed.

Lemma execFrom_cwd (d f : jsstring) :
  noSlash f ->
  forall i,
    execFrom cwdRegExp i (d ++ 47%N :: f ++ js ".orchest")
    = Some (MatchResult (i + length d) (47%N :: f ++ js ".orchest") None).
Proof.
  intros Hf. induction d as [|x d IH]; intros i.
  - cbn [app execFrom]. rewrite (cwd_match_slash f i Hf).
    cbn [pos cap length]. rewrite Nat.add_0_r. f_equal. f_equal.
    apply firstn_all2. cbn [length]. rewrite length_app.
    change (length (js ".orchest")) with 8%nat. lia.
  - assert (Hno := cwd_no_match (x :: d) (f ++ js ".orchest") i).
    cbn [app] in *. cbn [execFrom]. rewrite Hno.
    + rewrite IH. do 2 f_equal. cbn [length]. lia.
    + discriminate.
    + rewrite length_app. change (length (js ".orchest")) with 8%nat. lia.
Qed.

Lemma execFrom_cwd_start (f : jsstring) :
  noSlash f ->
  execFrom cwdRegExp 0 (f ++ js ".orchest")
  = Some (MatchResult 0 (f ++ js ".orchest") None).
Proof.
  intros Hf. rewrite execFrom_unfold, (cwd_match_start f 0 Hf).
  cbn [pos cap]. f_equal. f_equal.
  apply firstn_all2. rewrite length_app.
  change (length (js ".orchest")) with 8%nat. lia.
Qed.

End CwdFacts.

(** ** The primitives on sample inputs *)

Module Examples.

Import Number Spec DialogSpec PipelineList LoadParametersDialog.
Local Open Scope Z_scope.

Example regExp_suffix :
  jsmatch (js "main 12x") regExp
  = Some (MatchResult 0 (js "main 12") (Some (js " 12"))).
Proof. reflexivity. Qed.

Example regExp_prefix :
  jsmatch (js "Mainframe") regExp = Some (MatchResult 0 (js "Main") None).
Proof. reflexivity. Qed.

Example regExp_anchored : jsmatch (js "My Main 3") regExp = None.
Proof. reflexivity. Qed.

Example parseInt_leading_zero : parseInt (js "007") = Num 7.
Proof. reflexivity. Qed.

Example parseInt_two53_plus_1 :
  parseInt (js "9007199254740993") = Num 9007199254740992.
Proof. vm_compute. reflexivity. Qed.

Example add_two53_1 : add (Num (2 ^ 53)) (Num 1) = Num (2 ^ 53).
Proof. vm_compute. reflexivity. Qed.

Example toString_two60 :
  toString (ofZ (2 ^ 60)) = js "1152921504606847000".
Proof. vm_compute. reflexivity. Qed.

Example toString_two70 :
  toString (ofZ (2 ^ 70)) = js "1.1805916207174113e+21".
Proof. vm_compute. reflexivity. Qed.

Example toString_overflow : toString (ofZ (2 ^ 1024)) = js "Infinity".
Proof. vm_compute. reflexivity. Qed.

Example name_after_prefix_match :
  getValidNewPipelineName [pipelineNamed "Mainframe" "mainframe.orchest"]
  = js "Main 1".
Proof. vm_compute. reflexivity. Qed.

Example name_after_mixed_case :
  getValidNewPipelineName [pipelineNamed "MAIN 007" "main_007.orchest"]
  = js "Main 8".
Proof. vm_compute. reflexivity. Qed.

Example path_of_name :
  getPathFromName (fun s => s) (js "My Pipeline-2") = js "my_pipeline_2.orchest".
Proof. vm_compute. reflexivity. Qed.

Example cwd_nested :
  pipelineCwd (Some (js "a/b/c.orchest")) = Some (js "a/b/").
Proof. vm_compute. reflexivity. Qed.

Example cwd_other_extension :
  pipelineCwd (Some (js "a/b.txt")) = Some (js "a/b.txt").
Proof. vm_compute. reflexivity. Qed.

Example error_message_unknown_code :
  getProperty (getErrorMessages (js "p.orchest")) (js "7") = UndefinedValue.
Proof. reflexivity. Qed.

Example error_message_inherited_code :
  getProperty (getErrorMessages (js "p.orchest")) (js "constructor")
  = InheritedValue (js "constructor").
Proof. reflexivity. Qed.

End Examples.

(** ** The default name and path of a new pipeline *)

Module DefaultName.

Import Number Spec PipelineList JSFacts NumberFacts NameFacts.
Local Open Scope Z_scope.

(** Beyond 2^53 the successor of a number is no longer exact:
    for the one existing name "Main 9007199254740992" the code proposes
    that very name, where section 4.1 asks for "Main 9007199254740993". *)
Lemma getValidNewPipelineName_beyond_safe :
  ~ (forall pipelines,
       getValidNewPipelineName pipelines = proposedName pipelines).
Proof.
  intros H.
  specialize (H [pipelineNamed "Main 9007199254740992" "a.orchest"]).
  vm_compute in H. discriminate H.
Qed.

(** C1 (as amended). When every numeric suffix of a matching name is a
    safe integer (below 2^53), [getValidNewPipelineName] returns "Main" if
    no existing name begins with "Main" in any letter case, and otherwise
    "Main <N+1>" for the largest suffix N, a name without digits after
    "Main " counting as 0.  Existing names "Main", "Main 1", "Main 3" give
    "Main 4" and the path "main_4.orchest"; no pipelines give "Main" and
    "main.orchest". *)
Theorem getValidNewPipelineName_proposed
        (unicodeToLowerCase : jsstring -> jsstring)
        (pipelines : list PipelineMetaData) :
  Forall safeInteger (suffixes pipelines) ->
  getValidNewPipelineName pipelines = proposedName pipelines
  /\ (List.map name pipelines = [js "Main"; js "Main 1"; js "Main 3"] ->
      getValidNewPipelineName pipelines = js "Main 4"
      /\ getPathFromName unicodeToLowerCase (getValidNewPipelineName pipelines)
         = js "main_4.orchest")
  /\ (pipelines = [] ->
      getValidNewPipelineName pipelines = js "Main"
      /\ getPathFromName unicodeToLowerCase (getValidNewPipelineName pipelines)
         = js "main.orchest").
Proof.
  intros Hsafe. split; [now apply getValidNewPipelineName_safe|]. split.
  - intros Hnames.
    destruct pipelines as [|[n1 p1 u1] [|[n2 p2 u2] [|[n3 p3 u3] [|]]]];
      try discriminate.
    cbn [List.map name] in Hnames. injection Hnames as -> -> ->.
    split; vm_compute; reflexivity.
  - intros ->. split; vm_compute; reflexivity.
Qed.

Lemma getValidNewPipelineName_proposed_witness :
  Forall safeInteger
         (suffixes [pipelineNamed "Main" "main.orchest";
                    pipelineNamed "Main 1" "main_1.orchest";
                    pipelineNamed "Main 3" "main_3.orchest"])
  /\ getValidNewPipelineName
       [pipelineNamed "Main" "main.orchest";
        pipelineNamed "Main 1" "main_1.orchest";
        pipelineNamed "Main 3" "main_3.orchest"] = js "Main 4".
Proof.
  assert (Hsafe : Forall safeInteger
         (suffixes [pipelineNamed "Main" "main.orchest";
                    pipelineNamed "Main 1" "main_1.orchest";
                    pipelineNamed "Main 3" "main_3.orchest"])).
  { repeat constructor. }
  split; [exact Hsafe|].
  apply (getValidNewPipelineName_proposed (fun s => s) _ Hsafe).
  reflexivity.
Defined.

(** At 2^53 the proposed suffix is the existing one, not a larger one. *)
Lemma new_suffix_not_larger_beyond_safe :
  ~ (forall pipelines p n,
       In p pipelines -> numericSuffix (name p) = Some n ->
       exists m, numericSuffix (getValidNewPipelineName pipelines) = Some m
                 /\ n < m).
Proof.
  intros H.
  destruct (H [pipelineNamed "Main 9007199254740992" "a.orchest"]
              (pipelineNamed "Main 9007199254740992" "a.orchest")
              9007199254740992 (or_introl eq_refl) eq_refl)
    as (m & Hm & Hlt).
  vm_compute in Hm. injection Hm as <-. lia.
Qed.

(** C3 (as amended). When every numeric suffix of a matching name is a
    safe integer (below 2^53), the numeric suffix of the name that
    [getValidNewPipelineName] returns is strictly greater than the suffix
    of every existing name that matches. *)
Theorem new_suffix_larger (pipelines : list PipelineMetaData)
        (p : PipelineMetaData) (n : Z) :
  Forall safeInteger (suffixes pipelines) ->
  In p pipelines -> numericSuffix (name p) = Some n ->
  exists m, numericSuffix (getValidNewPipelineName pipelines) = Some m
            /\ n < m.
Proof.
  intros Hsafe Hin Hn. rewrite (getValidNewPipelineName_safe _ Hsafe).
  destruct (proposedName_suffix pipelines) as (m & Hm & Hlt).
  exists m. split; [assumption|].
  specialize (Hlt n (in_suffixes pipelines p n Hin Hn)). lia.
Qed.

Lemma new_suffix_larger_witness :
  exists m,
    numericSuffix
      (getValidNewPipelineName [pipelineNamed "Main" "main.orchest";
                                pipelineNamed "MAIN 3" "main_3.orchest"])
    = Some m /\ 3 < m.
Proof.
  apply (new_suffix_larger
           [pipelineNamed "Main" "main.orchest";
            pipelineNamed "MAIN 3" "main_3.orchest"]
           (pipelineNamed "MAIN 3" "main_3.orchest") 3).
  - repeat constructor.
  - right. left. reflexivity.
  - reflexivity.
Defined.

(** An existing pipeline named "main_1", stored at the path its name
    gives, has the path of the default name "Main 1". *)
Lemma default_path_collides :
  ~ (forall (unicodeToLowerCase : jsstring -> jsstring) pipelines,
       NoDup (List.map name pipelines) ->
       forall p, In p pipelines ->
         name p <> getValidNewPipelineName pipelines
         /\ path p <> getPathFromName unicodeToLowerCase
                        (getValidNewPipelineName pipelines)).
Proof.
  intros H.
  destruct (H (fun s => s) [pipelineNamed "main_1" "main_1.orchest"]
              ltac:(repeat constructor; intros [])
              (pipelineNamed "main_1" "main_1.orchest") (or_introl eq_refl))
    as [_ Hpath].
  apply Hpath. vm_compute. reflexivity.
Qed.

End DefaultName.

(** ** Create, rename and delete *)

Module Submissions.

Import Spec PipelineList JSFacts.

(** [onSubmitCreatePipeline] itself does not look at [isPathTaken]: what
    keeps a path that an existing pipeline has from being sent is the
    disabled submit button of the form. *)
Example create_handler_alone_sends_duplicate_path :
  isPathTaken (createForm [existing "main.orchest"] "Main" "main.orchest")
  = true
  /\ existsb isFetch
       (onSubmitCreatePipeline (js "project-1")
          (createForm [existing "main.orchest"] "Main" "main.orchest")
          Fulfilled) = true.
Proof. split; reflexivity. Qed.

(** C4. Submitting the create form with an empty name, an empty path,
    the path ".orchest", a path that an existing pipeline has, or a path
    that does not end in ".orchest" sends no request and shows a message.
    For a path that an existing pipeline has, the message is the inline
    text "File already exists" under the path field, and the handler is
    not reached, as the submit button is disabled; otherwise
    [onSubmitCreatePipeline] shows one alert and nothing else (while an
    earlier request is pending the button is disabled and nothing happens
    at all). *)
Theorem create_validation (projectUuid : jsstring) (st : state)
        (isOperating : bool) (o : outcome) :
  invalidCreate st ->
  let trace := PipelineView.onSubmitCreateForm projectUuid st isOperating o in
  existsb isFetch trace = false
  /\ applyEffects st trace = st
  /\ (isPathTaken st = true ->
      pathHelperText st = js "File already exists" /\ trace = [])
  /\ (isPathTaken st = false -> isOperating = false ->
      exists message,
        trace = [SetAlert (js "Error") (Some message)]
        /\ trace = onSubmitCreatePipeline projectUuid st o
        /\ In message
             [js "Please enter a name.";
              js "Please enter the path for the pipeline.";
              js "The path should end in the .orchest extension."]).
Proof.
  intros Hinvalid trace. subst trace. unfold invalidCreate in Hinvalid.
  unfold PipelineView.onSubmitCreateForm, createButtonDisabled, pathHelperText.
  destruct (isPathTaken st) eqn:Htaken.
  { cbn [orb]. repeat split; intros; discriminate. }
  cbn [orb].
  assert (Hhandler :
            exists message,
              onSubmitCreatePipeline projectUuid st o
              = [SetAlert (js "Error") (Some message)]
              /\ In message
                   [js "Please enter a name.";
                    js "Please enter the path for the pipeline.";
                    js "The path should end in the .orchest extension."]).
  { unfold onSubmitCreatePipeline.
    destruct (createPipelineName st) as [|c n].
    { eexists. split; [reflexivity | now left]. }
    destruct Hinvalid as [H | [H | [H | [H | H]]]];
      [discriminate | | | discriminate |].
    - rewrite H. eexists. split; [reflexivity | right; now left].
    - rewrite H. eexists. split; [reflexivity | right; now left].
    - rewrite H. cbn [negb].
      destruct (_ || _); eexists; (split; [reflexivity|]).
      + right; now left.
      + right; right; now left. }
  destruct Hhandler as (message & Htrace & Hmessage).
  destruct isOperating.
  - repeat split; intros; discriminate.
  - rewrite Htrace. repeat split; try (intros; discriminate).
    intros _ _. exists message. repeat split. exact Hmessage.
Qed.

Lemma create_validation_witness :
  (existsb isFetch
     (PipelineView.onSubmitCreateForm (js "project-1")
        (createForm [existing "main.orchest"] "Main" "main.orchest")
        false Fulfilled) = false
   /\ pathHelperText
        (createForm [existing "main.orchest"] "Main" "main.orchest")
      = js "File already exists")
  /\ (existsb isFetch
        (PipelineView.onSubmitCreateForm (js "project-1")
           (createForm [existing "main.orchest"] "Second" "second.txt")
           false Fulfilled) = false
      /\ exists message,
           PipelineView.onSubmitCreateForm (js "project-1")
             (createForm [existing "main.orchest"] "Second" "second.txt")
             false Fulfilled
           = [SetAlert (js "Error") (Some message)]).
Proof.
  split.
  - destruct (create_validation (js "project-1")
                (createForm [existing "main.orchest"] "Main" "main.orchest")
                false Fulfilled) as (Hfetch & _ & Htaken & _).
    + right. right. right. left. reflexivity.
    + split; [exact Hfetch | apply Htaken; reflexivity].
  - destruct (create_validation (js "project-1")
                (createForm [existing "main.orchest"] "Second" "second.txt")
                false Fulfilled) as (Hfetch & _ & _ & Halert).
    + right. right. right. right. reflexivity.
    + split; [exact Hfetch|].
      destruct (Halert eq_refl eq_refl) as (message & Htrace & _).
      exists message. exact Htrace.
Defined.

(** C5. A rename whose path does not end in ".orchest" shows the alert
    "The path should end in the .orchest extension." and sends no
    request. *)
Theorem rename_rejects_extension (projectUuid : jsstring) (st : state)
        (e : editing) (o : outcome) :
  pipelineInEdit st = Some e ->
  endsWith (editPath e) (js ".orchest") = false ->
  onSubmitEditPipelinePathModal projectUuid st o
  = [SetAlert (js "Error")
       (Some (js "The path should end in the .orchest extension."))]
  /\ existsb isFetch (onSubmitEditPipelinePathModal projectUuid st o) = false.
Proof.
  intros He Hext. unfold onSubmitEditPipelinePathModal.
  rewrite He, Hext. split; reflexivity.
Qed.

Lemma rename_rejects_extension_witness :
  onSubmitEditPipelinePathModal (js "project-1")
    (renameForm "uuid-1" "renamed.txt") Fulfilled
  = [SetAlert (js "Error")
       (Some (js "The path should end in the .orchest extension."))]
  /\ existsb isFetch
       (onSubmitEditPipelinePathModal (js "project-1")
          (renameForm "uuid-1" "renamed.txt") Fulfilled) = false.
Proof.
  apply (rename_rejects_extension (js "project-1")
           (renameForm "uuid-1" "renamed.txt")
           {| editUuid := js "uuid-1"; editPath := js "renamed.txt" |}
           Fulfilled); reflexivity.
Defined.

(** *** Delete *)

Lemma firstRejection_none (l : list settlement) :
  firstRejection l = None <-> existsb rejects l = false.
Proof.
  induction l as [|[t | t e] l IH]; cbn [firstRejection existsb rejects orb].
  - tauto.
  - exact IH.
  - split; [|discriminate].
    destruct (firstRejection l) as [[t' e']|]; [|discriminate].
    destruct (t' <? t)%nat; discriminate.
Qed.

Lemma firstRejection_in (l : list settlement) (t : nat) (e : jsstring) :
  firstRejection l = Some (t, e) -> In (Rejects t e) l.
Proof.
  induction l as [|[t0 | t0 e0] l IH]; cbn [firstRejection]; intros H.
  - discriminate.
  - right. now apply IH.
  - destruct (firstRejection l) as [[t' e']|].
    + destruct (t' <? t0)%nat; injection H as <- <-.
      * right. now apply IH.
      * now left.
    + injection H as <- <-. now left.
Qed.

Lemma filter_fetches (projectUuid : jsstring)
      (selected : list (jsstring * settlement)) (tail : list effect) :
  existsb isFetch tail = false ->
  filter isFetch
    (List.map (fun s => Fetch (requestDeletePipelines projectUuid (fst s)))
              selected ++ tail)
  = List.map (fun s => Fetch (requestDeletePipelines projectUuid (fst s)))
             selected.
Proof.
  intros Htail. induction selected as [|s l IH]; cbn [List.map app filter isFetch].
  - induction tail as [|x tail IH]; [reflexivity|].
    cbn [existsb filter] in *. apply orb_false_iff in Htail as [Hx Ht].
    rewrite Hx. now apply IH.
  - now rewrite IH.
Qed.

(** When one of two deletions fails, the list is not fetched again. *)
Lemma delete_failure_skips_refresh :
  ~ (forall projectUuid selected,
       filter isFetch (onConfirmDelete projectUuid selected)
       = List.map (fun s => Fetch (requestDeletePipelines projectUuid (fst s)))
                  selected
       /\ (existsb rejects (List.map snd selected) = true ->
           existsb isSetAlert (onConfirmDelete projectUuid selected) = true
           /\ In RequestFetchPipelines (onConfirmDelete projectUuid selected))).
Proof.
  intros H.
  destruct (H (js "project-1")
              [(js "uuid-1", Resolves 1);
               (js "uuid-2", Rejects 2 (js "Error: 500"))])
    as [_ Hrej].
  destruct (Hrej eq_refl) as [_ Hin].
  cbn in Hin. repeat destruct Hin as [Hin | Hin]; try discriminate Hin.
  exact Hin.
Qed.

Lemma firstRejection_first (l1 l2 : list settlement) (t : nat)
      (e : jsstring) :
  (forall t' e', In (Rejects t' e') l1 -> (t < t')%nat) ->
  (forall t' e', In (Rejects t' e') l2 -> (t <= t')%nat) ->
  firstRejection (l1 ++ Rejects t e :: l2) = Some (t, e).
Proof.
  intros Hbefore Hafter.
  induction l1 as [|[t1 | t1 e1] l1 IH]; cbn [app firstRejection].
  - destruct (firstRejection l2) as [[t' e']|] eqn:E; [|reflexivity].
    apply firstRejection_in in E. apply Hafter in E.
    destruct (Nat.ltb_spec t' t); [lia | reflexivity].
  - apply IH. intros t' e' H. apply (Hbefore t' e'). now right.
  - rewrite IH by (intros t' e' H; apply (Hbefore t' e'); now right).
    assert (H : (t < t1)%nat) by (apply (Hbefore t1 e1); now left).
    destruct (Nat.ltb_spec t t1); [reflexivity | lia].
Qed.

(** C6 (as amended). Once the user confirms, one DELETE request is sent
    for each selected uuid, in order.  If every request succeeds the
    pipeline list is fetched again; if any request is rejected an error
    alert with the reason of the first rejection is shown and the list is
    not fetched again.  The first rejection is the one that happens
    earliest, the one of the earlier row when two happen together; its
    alert is the only one. *)
Theorem delete_batch (projectUuid : jsstring)
        (selected : list (jsstring * settlement)) :
  let trace := onConfirmDelete projectUuid selected in
  filter isFetch trace
  = List.map (fun s => Fetch (requestDeletePipelines projectUuid (fst s)))
             selected
  /\ (existsb rejects (List.map snd selected) = false ->
      In RequestFetchPipelines trace
      /\ existsb isSetAlert trace = false)
  /\ (existsb rejects (List.map snd selected) = true ->
      (exists t e,
         In (Rejects t e) (List.map snd selected)
         /\ In (SetAlert (js "Error")
                  (Some (js "Failed to delete pipeline: " ++ e))) trace)
      /\ ~ In RequestFetchPipelines trace)
  /\ (forall before t e after,
        List.map snd selected = before ++ Rejects t e :: after ->
        (forall t' e', In (Rejects t' e') before -> (t < t')%nat) ->
        (forall t' e', In (Rejects t' e') after -> (t <= t')%nat) ->
        filter isSetAlert trace
        = [SetAlert (js "Error")
             (Some (js "Failed to delete pipeline: " ++ e))]).
Proof.
  intros trace. subst trace. unfold onConfirmDelete.
  set (reqs := List.map _ selected).
  assert (Hreqs : forall x, In x reqs -> isFetch x = true).
  { subst reqs. intros x Hx. apply in_map_iff in Hx.
    now destruct Hx as (s & <- & _). }
  split; [|split; [|split]].
  - apply filter_fetches.
    destruct (firstRejection _) as [[t e]|]; reflexivity.
  - intros Hnone. apply firstRejection_none in Hnone. rewrite Hnone. split.
    + apply in_or_app. right. now left.
    + rewrite existsb_app. apply orb_false_iff. split; [|reflexivity].
      apply not_true_is_false. intros Hex.
      apply existsb_exists in Hex as (x & Hx & Halert).
      apply Hreqs in Hx. now destruct x.
  - intros Hsome.
    destruct (firstRejection (List.map snd selected)) as [[t e]|] eqn:E.
    + split.
      * exists t, e. split; [now apply firstRejection_in|].
        apply in_or_app. right. now left.
      * intros Hin. apply in_app_or in Hin as [Hin | Hin].
        -- apply Hreqs in Hin. discriminate Hin.
        -- repeat destruct Hin as [Hin | Hin]; try discriminate Hin.
           exact Hin.
    + apply firstRejection_none in E. congruence.
  - intros before t e after Hsplit Hbefore Hafter.
    rewrite Hsplit, (firstRejection_first before after t e Hbefore Hafter).
    subst reqs. clear Hreqs Hsplit.
    induction selected as [|s l IH]; [reflexivity|].
    cbn [List.map app filter isSetAlert]. exact IH.
Qed.

Lemma delete_batch_witness :
  filter isFetch
    (onConfirmDelete (js "project-1")
       [(js "uuid-1", Rejects 5 (js "Error: 404"));
        (js "uuid-2", Resolves 1);
        (js "uuid-3", Rejects 2 (js "Error: 500"))])
  = [Fetch (requestDeletePipelines (js "project-1") (js "uuid-1"));
     Fetch (requestDeletePipelines (js "project-1") (js "uuid-2"));
     Fetch (requestDeletePipelines (js "project-1") (js "uuid-3"))]
  /\ ~ In RequestFetchPipelines
        (onConfirmDelete (js "project-1")
           [(js "uuid-1", Rejects 5 (js "Error: 404"));
            (js "uuid-2", Resolves 1);
            (js "uuid-3", Rejects 2 (js "Error: 500"))])
  /\ filter isSetAlert
       (onConfirmDelete (js "project-1")
          [(js "uuid-1", Rejects 5 (js "Error: 404"));
           (js "uuid-2", Resolves 1);
           (js "uuid-3", Rejects 2 (js "Error: 500"))])
     = [SetAlert (js "Error")
          (Some (js "Failed to delete pipeline: " ++ js "Error: 500"))].
Proof.
  destruct (delete_batch (js "project-1")
              [(js "uuid-1", Rejects 5 (js "Error: 404"));
               (js "uuid-2", Resolves 1);
               (js "uuid-3", Rejects 2 (js "Error: 500"))])
    as (Hsent & _ & Hrejected & Hfirst).
  split; [exact Hsent | split].
  - apply Hrejected. reflexivity.
  - apply (Hfirst [Rejects 5 (js "Error: 404"); Resolves 1] 2%nat
             (js "Error: 500") []).
    + reflexivity.
    + intros t' e' [H | [H | []]]; [|discriminate H].
      injection H as <- _. lia.
    + intros t' e' [].
Defined.

(** *** Requests that fail *)





(** C8. When the rename request is rejected and the body parses to a
    value whose [code] is 2, the alert shows the message for code 2 with
    the path that was sent in it. *)
Theorem rename_path_exists_message (projectUuid : jsstring) (st : state)
        (edit : editing) (e : rejection) (message : jsstring) :
  pipelineInEdit st = Some edit ->
  endsWith (editPath edit) (js ".orchest") = true ->
  responseText e = JsonValue message (js "2") ->
  onSubmitEditPipelinePathModal projectUuid st (Rejected e)
  = [Fetch {| method := PUT;
              url := js "/async/pipelines/" ++ projectUuid ++ js "/"
                     ++ editUuid edit;
              body := [(js "path", editPath edit)] |};
     SetAlert (js "Error")
       (Some (js "Cannot change the pipeline path, a file path with the name "
              ++ editPath edit ++ [34%N] ++ js " already exists."));
     SetIsEditingPipelinePath false].
Proof.
  intros Hedit Hext Hbody. unfold onSubmitEditPipelinePathModal.
  rewrite Hedit, Hext, Hbody. reflexivity.
Qed.

Lemma rename_path_exists_message_witness :
  In (SetAlert (js "Error")
        (Some (js "Cannot change the pipeline path, a file path with the name "
               ++ js "other.orchest" ++ [34%N] ++ js " already exists.")))
     (onSubmitEditPipelinePathModal (js "project-1")
        (renameForm "uuid-1" "other.orchest") (serverError "2")).
Proof.
  unfold serverError.
  rewrite (rename_path_exists_message (js "project-1")
             (renameForm "uuid-1" "other.orchest")
             {| editUuid := js "uuid-1"; editPath := js "other.orchest" |}
             {| isCanceled := false;
                responseText := JsonValue (js "undefined") (js "2") |}
             (js "undefined") eq_refl eq_refl eq_refl).
  right. left. reflexivity.
Defined.

End Submissions.

(** ** The parameter-file dialog *)

Module ParameterFile.

Import Spec DialogSpec JSFacts CwdFacts LoadParametersDialog.

(** C9. For a pipeline path whose final component ends in ".orchest",
    [pipelineCwd] is the path with that component, and the slash before
    it, replaced by "/": "foo/bar.orchest" gives "foo/" and
    "main.orchest" gives "/". *)
Theorem pipelineCwd_strips_file (d f : jsstring) :
  noSlash f ->
  pipelineCwd (Some (d ++ js "/" ++ f ++ js ".orchest")) = Some (d ++ js "/")
  /\ pipelineCwd (Some (f ++ js ".orchest")) = Some (js "/")
  /\ pipelineCwd (Some (js "foo/bar.orchest")) = Some (js "foo/")
  /\ pipelineCwd (Some (js "main.orchest")) = Some (js "/").
Proof.
  intros Hf. unfold pipelineCwd, replace. repeat split.
  - change (js "/" ++ f ++ js ".orchest") with (47%N :: f ++ js ".orchest").
    rewrite (execFrom_cwd d f Hf 0). cbn [index matched Nat.add].
    rewrite firstn_app, firstn_all, Nat.sub_diag. cbn [firstn].
    rewrite app_nil_r, skipn_all2; [reflexivity|].
    rewrite length_app. lia.
  - rewrite (execFrom_cwd_start f Hf). cbn [index matched Nat.add firstn].
    now rewrite skipn_all.
Qed.

Lemma pipelineCwd_strips_file_witness :
  noSlash (js "pipeline")
  /\ pipelineCwd (Some (js "jobs/nightly" ++ js "/" ++ js "pipeline"
                        ++ js ".orchest"))
     = Some (js "jobs/nightly" ++ js "/").
Proof.
  assert (Hf : noSlash (js "pipeline")).
  { repeat constructor; discriminate. }
  split; [exact Hf|].
  apply (pipelineCwd_strips_file (js "jobs/nightly") (js "pipeline") Hf).
Defined.

Lemma runEvents_state (evs : list event) :
  forall st, selectedPath (fst (runEvents st evs)) = chosen evs (selectedPath st).
Proof.
  induction evs as [|ev evs IH]; intros st; [reflexivity|].
  cbn [runEvents]. destruct (step st ev) as [st1 out1] eqn:E1.
  specialize (IH st1). destruct (runEvents st1 evs) as [st2 out2].
  cbn [fst] in *. rewrite IH. unfold chosen. cbn [fold_left]. f_equal.
  destruct ev; cbn in E1; injection E1 as <- _; reflexivity.
Qed.

Lemma runEvents_app (a b : list event) :
  forall st,
    runEvents st (a ++ b)
    = (fst (runEvents (fst (runEvents st a)) b),
       snd (runEvents st a) ++ snd (runEvents (fst (runEvents st a)) b)).
Proof.
  induction a as [|ev a IH]; intros st.
  - cbn [app runEvents fst snd]. now destruct (runEvents st b).
  - cbn [app runEvents]. destruct (step st ev) as [st1 out1].
    rewrite IH. destruct (runEvents st1 a) as [st2 out2].
    cbn [fst snd]. destruct (runEvents st2 b) as [st3 out3].
    cbn [fst snd]. now rewrite app_assoc.
Qed.

(** C10. Submitting the form hands [onSubmit] the path selected at that
    moment, whatever it is and whatever the validity check said: the empty
    string if nothing was chosen, a path reported as not existing
    otherwise. *)
Theorem submit_emits_selected_path (evs : list event) :
  snd (runEvents initialState (evs ++ [Submit]))
  = snd (runEvents initialState evs)
    ++ [PreventDefault; StopPropagation; OnSubmit (chosen evs [])]
  /\ snd (runEvents initialState [Submit])
     = [PreventDefault; StopPropagation; OnSubmit []]
  /\ forall value,
       snd (runEvents initialState
              [ChangeFilePath value; FileValidity false; Submit])
       = [PreventDefault; StopPropagation; OnSubmit value].
Proof.
  split; [|split; [reflexivity | intros value; reflexivity]].
  rewrite runEvents_app. cbn [snd fst runEvents step].
  rewrite app_nil_r. now rewrite runEvents_state.
Qed.

End ParameterFile.

(** ** More about the default name *)

Module NameOrder.

Import Number Spec MoreSpec PipelineList JSFacts NumberFacts NameFacts.
Local Open Scope Z_scope.

(** The callback of the reduction, whatever the size of the suffix. *)
Lemma largerNumber_exact (a : number) (p : PipelineMetaData) :
  largerNumber a p
  = match afterBase (name p) with
    | Some tail => Math.max a (ofZ (digitsVal (suffixDigits tail)))
    | None => a
    end.
Proof.
  unfold largerNumber.
  pose proof (jsmatch_regExp (name p)) as Hm.
  destruct (jsmatch (name p) regExp) as [m|];
    destruct (afterBase (name p)) as [tail|]; try discriminate;
    [|reflexivity].
  cbn [option_map] in Hm. injection Hm as Hm. rewrite Hm.
  now rewrite currentNumber_spec.
Qed.

Lemma roundNat_notNaN (n : Z) : notNaN (roundNat n).
Proof.
  unfold notNaN, roundNat. destruct (n <? 2 ^ 53); [discriminate|].
  cbv zeta. destruct (_ <? 2 ^ 1024); discriminate.
Qed.

Lemma ofZ_notNaN (z : Z) : notNaN (ofZ z).
Proof.
  unfold ofZ. destruct (z <? 0); [|apply roundNat_notNaN].
  pose proof (roundNat_notNaN (- z)) as H. unfold notNaN in *.
  destruct (roundNat (- z)); cbn; congruence.
Qed.

Lemma max_notNaN (a b : number) : notNaN a -> notNaN b -> notNaN (Math.max a b).
Proof.
  unfold notNaN, Math.max. intros Ha Hb.
  destruct a, b; try congruence; destruct (gt _ _); congruence.
Qed.

Lemma max_swap (a x y : number) :
  notNaN a -> notNaN x -> notNaN y ->
  Math.max (Math.max a x) y = Math.max (Math.max a y) x.
Proof.
  unfold notNaN. intros Ha Hx Hy.
  destruct a as [|a| |], x as [|x| |], y as [|y| |]; try congruence;
    cbn [Math.max gt];
    repeat match goal with
           | |- context [(?u <? ?v)] => destruct (Z.ltb_spec u v); cbn [Math.max gt]
           end; try reflexivity; f_equal; lia.
Qed.

Lemma largerNumber_notNaN (a : number) (p : PipelineMetaData) :
  notNaN a -> notNaN (largerNumber a p).
Proof.
  intros Ha. rewrite largerNumber_exact.
  destruct (afterBase (name p)); [|assumption].
  apply max_notNaN; [assumption | apply ofZ_notNaN].
Qed.

Lemma largerNumber_swap (a : number) (p q : PipelineMetaData) :
  notNaN a ->
  largerNumber (largerNumber a p) q = largerNumber (largerNumber a q) p.
Proof.
  intros Ha. rewrite !largerNumber_exact.
  destruct (afterBase (name p)), (afterBase (name q)); try reflexivity.
  apply max_swap; [assumption | apply ofZ_notNaN | apply ofZ_notNaN].
Qed.

Lemma fold_largerNumber_perm (ps qs : list PipelineMetaData) :
  Permutation ps qs ->
  forall a, notNaN a ->
    fold_left largerNumber ps a = fold_left largerNumber qs a.
Proof.
  induction 1 as [|p ps qs _ IH|p q ps|ps qs rs _ IH1 _ IH2]; intros a Ha.
  - reflexivity.
  - cbn [fold_left]. apply IH. now apply largerNumber_notNaN.
  - cbn [fold_left]. now rewrite largerNumber_swap.
  - now rewrite IH1, IH2.
Qed.

Lemma fold_largerNumber_filter (ps : list PipelineMetaData) :
  forall a,
    fold_left largerNumber
      (filter (fun p => matchesBase (name p)) ps) a
    = fold_left largerNumber ps a.
Proof.
  induction ps as [|p ps IH]; intros a; [reflexivity|].
  cbn [filter fold_left]. unfold matchesBase at 1.
  rewrite (largerNumber_exact a p).
  destruct (afterBase (name p)) as [tail|] eqn:E.
  - cbn [fold_left]. rewrite largerNumber_exact, E. apply IH.
  - apply IH.
Qed.

(** X1. The default name does not depend on the order in which the
    existing pipelines are listed. *)
Theorem getValidNewPipelineName_order (ps qs : list PipelineMetaData) :
  Permutation ps qs ->
  getValidNewPipelineName ps = getValidNewPipelineName qs.
Proof.
  intros Hperm. unfold getValidNewPipelineName.
  rewrite (fold_largerNumber_perm ps qs Hperm); [reflexivity|].
  unfold notNaN. discriminate.
Qed.

Lemma getValidNewPipelineName_order_witness :
  getValidNewPipelineName [pipelineNamed "Main 2" "a.orchest";
                           pipelineNamed "Main" "b.orchest"]
  = getValidNewPipelineName [pipelineNamed "Main" "b.orchest";
                             pipelineNamed "Main 2" "a.orchest"].
Proof.
  apply getValidNewPipelineName_order. apply perm_swap.
Defined.

(** X2. Pipelines whose names do not begin with "Main" (in any letter
    case) have no influence on the default name. *)
Theorem getValidNewPipelineName_ignores_others (ps : list PipelineMetaData) :
  getValidNewPipelineName (filter (fun p => matchesBase (name p)) ps)
  = getValidNewPipelineName ps.
Proof.
  unfold getValidNewPipelineName. now rewrite fold_largerNumber_filter.
Qed.

Lemma fold_right_max_snoc (ns : list Z) (n m : Z) :
  fold_right Z.max n (ns ++ [m]) = Z.max (fold_right Z.max n ns) m.
Proof.
  induction ns as [|k ns IH]; cbn [app fold_right]; [lia|].
  rewrite IH. lia.
Qed.

Lemma suffixes_app (ps qs : list PipelineMetaData) :
  suffixes (ps ++ qs) = suffixes ps ++ suffixes qs.
Proof. unfold suffixes. apply flat_map_app. Qed.

(** X3. Default names count up: once a pipeline with the proposed name
    has been added, the next proposal is "Main <m+1>", where [m] is the
    suffix of the name just used (0 for "Main"). *)
Theorem getValidNewPipelineName_next (ps : list PipelineMetaData)
        (p : PipelineMetaData) (m : Z) :
  Forall safeInteger (suffixes (ps ++ [p])) ->
  name p = getValidNewPipelineName ps ->
  numericSuffix (name p) = Some m ->
  getValidNewPipelineName (ps ++ [p]) = js "Main " ++ decimal (m + 1).
Proof.
  intros Hsafe Hname Hm.
  rewrite (getValidNewPipelineName_safe _ Hsafe).
  rewrite suffixes_app in Hsafe. apply Forall_app in Hsafe as [Hps _].
  rewrite (getValidNewPipelineName_safe _ Hps) in Hname.
  destruct (proposedName_suffix ps) as (k & Hk & Hlt).
  rewrite <- Hname, Hm in Hk. injection Hk as <-.
  unfold proposedName. rewrite suffixes_app.
  assert (Hp : suffixes [p] = [m]).
  { unfold suffixes. cbn [flat_map]. now rewrite Hm. }
  rewrite Hp. destruct (suffixes ps) as [|n ns]; cbn [app].
  - reflexivity.
  - rewrite fold_right_max_snoc.
    pose proof (fold_right_max_ge n ns) as Hge.
    assert (fold_right Z.max n ns < m).
    { assert (Hin : In (fold_right Z.max n ns) (n :: ns)).
      { clear. revert n. induction ns as [|k ns IH]; intros n; cbn [fold_right].
        - now left.
        - destruct (Z.max_spec k (fold_right Z.max n ns)) as [[_ ->] | [_ ->]].
          + destruct (IH n) as [<- | Hin]; [now left | right; now right].
          + right. now left. }
      specialize (Hlt _ Hin). lia. }
    do 2 f_equal. lia.
Qed.

Lemma getValidNewPipelineName_next_witness :
  getValidNewPipelineName
    ([pipelineNamed "Main" "main.orchest"]
     ++ [pipelineNamed "Main 1" "main_1.orchest"])
  = js "Main " ++ decimal (1 + 1).
Proof.
  apply (getValidNewPipelineName_next
           [pipelineNamed "Main" "main.orchest"]
           (pipelineNamed "Main 1" "main_1.orchest") 1).
  - repeat constructor.
  - vm_compute. reflexivity.
  - reflexivity.
Defined.

End NameOrder.

(** ** Paths derived from names *)

Module DerivedPath.

Import Number Spec MoreSpec PipelineList JSFacts NumberFacts NameFacts.
Local Open Scope Z_scope.

Lemma isWordChar_replaced (s : jsstring) :
  forallb isWordChar
    (flat_map (fun c => if isNonWordChar c then js "_" else [c]) s) = true.
Proof.
  induction s as [|c s IH]; [reflexivity|].
  cbn [flat_map]. rewrite forallb_app, IH, andb_true_r.
  unfold isNonWordChar. destruct (isWordChar c) eqn:E; cbn; [|reflexivity].
  now rewrite E.
Qed.

Lemma isWordChar_notSlash (c : codeUnit) : isWordChar c = true -> c <> 47%N.
Proof. intros H ->. discriminate H. Qed.

Lemma getPathFromName_stem (unicodeToLowerCase : jsstring -> jsstring)
      (name : jsstring) :
  exists stem,
    getPathFromName unicodeToLowerCase name = stem ++ js ".orchest"
    /\ forallb isWordChar stem = true.
Proof.
  unfold getPathFromName. rewrite replaceAll_Chr.
  eexists. split; [reflexivity | apply isWordChar_replaced].
Qed.

(** X4. Whatever the name, the path derived from it is made of word
    characters followed by ".orchest": it passes the extension check and
    contains no slash. *)
Theorem getPathFromName_shape (unicodeToLowerCase : jsstring -> jsstring)
        (name : jsstring) :
  exists stem,
    getPathFromName unicodeToLowerCase name = stem ++ js ".orchest"
    /\ forallb isWordChar stem = true
    /\ endsWith (getPathFromName unicodeToLowerCase name) (js ".orchest") = true
    /\ ~ In 47%N (getPathFromName unicodeToLowerCase name).
Proof.
  destruct (getPathFromName_stem unicodeToLowerCase name)
    as (stem & Hpath & Hstem).
  exists stem. rewrite Hpath.
  repeat split; [assumption | apply endsWith_app |].
  intros Hin. apply in_app_or in Hin as [Hin | Hin].
  - rewrite forallb_forall in Hstem.
    now apply (isWordChar_notSlash _ (Hstem _ Hin)).
  - cbn in Hin. repeat destruct Hin as [Hin | Hin]; try discriminate Hin.
    exact Hin.
Qed.

Lemma isUpper_asciiLower (c : codeUnit) : isUpper (asciiLower c) = false.
Proof.
  unfold asciiLower. destruct (isUpper c) eqn:E; [|assumption].
  unfold isUpper in *. apply andb_true_iff in E as [H1 H2].
  apply N.leb_le in H1. apply N.leb_le in H2.
  apply andb_false_iff. right. apply N.leb_gt. lia.
Qed.

Lemma asciiLower_fixed (c : codeUnit) : isUpper c = false -> asciiLower c = c.
Proof. unfold asciiLower. now intros ->. Qed.

Lemma isAscii_asciiLower (c : codeUnit) :
  isAscii c = true -> isAscii (asciiLower c) = true.
Proof.
  unfold asciiLower. destruct (isUpper c) eqn:E; [|trivial].
  intros _. unfold isUpper in E. apply andb_true_iff in E as [H1 H2].
  apply N.leb_le in H2. apply N.ltb_lt. lia.
Qed.

Lemma pathChar_facts (c : codeUnit) :
  isAscii c = true ->
  isAscii (pathChar c) = true
  /\ asciiLower (pathChar c) = pathChar c
  /\ isNonWordChar (pathChar c) = false.
Proof.
  intros Hc. unfold pathChar.
  destruct (isNonWordChar (asciiLower c)) eqn:E.
  - now repeat split.
  - repeat split.
    + now apply isAscii_asciiLower.
    + apply asciiLower_fixed, isUpper_asciiLower.
    + assumption.
Qed.

Lemma getPathFromName_ascii (unicodeToLowerCase : jsstring -> jsstring)
      (name : jsstring) :
  forallb isAscii name = true ->
  getPathFromName unicodeToLowerCase name
  = List.map pathChar name ++ js ".orchest".
Proof.
  intros H. unfold getPathFromName, toLowerCase. rewrite H, replaceAll_Chr.
  f_equal. clear H. induction name as [|c s IH]; [reflexivity|].
  cbn [List.map flat_map]. rewrite IH. unfold pathChar.
  now destruct (isNonWordChar (asciiLower c)).
Qed.

Lemma pathChar_idempotent (s : jsstring) :
  forallb isAscii s = true ->
  forallb isAscii (List.map pathChar s) = true
  /\ List.map pathChar (List.map pathChar s) = List.map pathChar s.
Proof.
  induction s as [|c s IH]; intros H; [now split|].
  cbn [forallb] in H. apply andb_true_iff in H as [Hc Hs].
  destruct (IH Hs) as [IH1 IH2].
  destruct (pathChar_facts c Hc) as (Ha & Hl & Hw).
  cbn [List.map forallb]. rewrite Ha, IH1, IH2. split; [reflexivity|].
  f_equal. unfold pathChar at 1. now rewrite Hl, Hw.
Qed.

(** X5. For a name of ASCII characters the derived path keeps one
    character per character of the name, and deriving a path again from
    what stands before ".orchest" gives the same path. *)
Theorem getPathFromName_stable (unicodeToLowerCase : jsstring -> jsstring)
        (name : jsstring) :
  forallb isAscii name = true ->
  exists stem,
    getPathFromName unicodeToLowerCase name = stem ++ js ".orchest"
    /\ length stem = length name
    /\ getPathFromName unicodeToLowerCase stem = stem ++ js ".orchest".
Proof.
  intros H. exists (List.map pathChar name).
  destruct (pathChar_idempotent name H) as [Ha Hi].
  repeat split.
  - now apply getPathFromName_ascii.
  - apply length_map.
  - rewrite (getPathFromName_ascii _ _ Ha). now rewrite Hi.
Qed.

Lemma getPathFromName_stable_witness :
  exists stem,
    getPathFromName (fun s => s) (js "My Pipeline")
    = stem ++ js ".orchest"
    /\ length stem = length (js "My Pipeline")
    /\ getPathFromName (fun s => s) stem = stem ++ js ".orchest".
Proof.
  apply (getPathFromName_stable (fun s => s) (js "My Pipeline")).
  reflexivity.
Defined.

(** *** What the create handler accepts *)

Lemma streq_extension (stem : jsstring) :
  stem <> [] -> streq (stem ++ js ".orchest") (js ".orchest") = false.
Proof.
  intros Hne. apply not_true_is_false. intros H. apply streq_eq in H.
  apply (f_equal (@length _)) in H. rewrite length_app in H.
  destruct stem; [congruence | cbn in H; lia].
Qed.

Lemma create_accepts (projectUuid : jsstring) (st : state) (o : outcome)
      (stem : jsstring) :
  createPipelineName st <> [] -> stem <> [] ->
  createPipelinePath st = stem ++ js ".orchest" ->
  onSubmitCreatePipeline projectUuid st o
  = Fetch (createRequest projectUuid (createPipelineName st)
                         (createPipelinePath st))
    :: SetIsCreateDialogOpen false :: createSettled o.
Proof.
  intros Hname Hstem Hpath. unfold onSubmitCreatePipeline.
  destruct (createPipelineName st) as [|c n] eqn:En; [congruence|].
  rewrite Hpath, (streq_extension stem Hstem), endsWith_app.
  destruct stem as [|x stem]; [congruence|]. reflexivity.
Qed.

Lemma map_nonempty (f : codeUnit -> codeUnit) (s : jsstring) :
  s <> [] -> List.map f s <> [].
Proof. destruct s; [congruence | discriminate]. Qed.

(** X6. A non-empty name of ASCII characters typed into the name field
    fills the path field with a path that the submit handler accepts: it
    sends the create request with that name and path and shows no
    validation alert. *)
Theorem typed_name_is_accepted (unicodeToLowerCase : jsstring -> jsstring)
        (projectUuid value : jsstring) (st : state) (o : outcome) :
  value <> [] -> forallb isAscii value = true ->
  onSubmitCreatePipeline projectUuid
    (onChangePipelineName unicodeToLowerCase value st) o
  = Fetch (createRequest projectUuid value
             (getPathFromName unicodeToLowerCase value))
    :: SetIsCreateDialogOpen false :: createSettled o.
Proof.
  intros Hne Hascii.
  apply (create_accepts projectUuid
           (onChangePipelineName unicodeToLowerCase value st) o
           (List.map pathChar value)).
  - exact Hne.
  - now apply map_nonempty.
  - cbn [onChangePipelineName createPipelinePath].
    now apply getPathFromName_ascii.
Qed.

Lemma typed_name_is_accepted_witness :
  onSubmitCreatePipeline (js "project-1")
    (onChangePipelineName (fun s => s) (js "Train model") initialState)
    Fulfilled
  = Fetch (createRequest (js "project-1") (js "Train model")
             (getPathFromName (fun s => s) (js "Train model")))
    :: SetIsCreateDialogOpen false :: createSettled Fulfilled.
Proof.
  apply (typed_name_is_accepted (fun s => s) (js "project-1")
           (js "Train model") initialState Fulfilled).
  - discriminate.
  - reflexivity.
Defined.

(** *** The default name is always ASCII *)

Lemma digitsRev_digits_any (fuel : nat) :
  forall n, forallb isDigit (digitsRev fuel n) = true.
Proof.
  induction fuel as [|fuel IH]; intros n; [reflexivity|].
  cbn [digitsRev forallb].
  pose proof (Z.mod_pos_bound n 10 ltac:(lia)) as Hm.
  apply andb_true_iff. split.
  - unfold isDigit. apply andb_true_iff. split; apply N.leb_le; lia.
  - destruct (n <? 10); [reflexivity | apply IH].
Qed.

Lemma isAscii_digits (s : jsstring) :
  forallb isDigit s = true -> forallb isAscii s = true.
Proof.
  induction s as [|c s IH]; [reflexivity|]. cbn [forallb]. intros H.
  apply andb_true_iff in H as [Hc Hs]. rewrite (IH Hs), andb_true_r.
  unfold isDigit in Hc. apply andb_true_iff in Hc as [_ H2].
  apply N.leb_le in H2. apply N.ltb_lt. lia.
Qed.

Lemma isAscii_decimal (n : Z) : forallb isAscii (decimal n) = true.
Proof.
  apply isAscii_digits. unfold decimal. rewrite forallb_rev.
  apply digitsRev_digits_any.
Qed.

Lemma isAscii_toStringNat (z : Z) : forallb isAscii (toStringNat z) = true.
Proof.
  unfold toStringNat. destruct (z <? 2 ^ 53); [apply isAscii_decimal|].
  destruct (shortest _ z) as [c j].
  destruct (_ <=? 21)%nat; [apply isAscii_decimal|].
  pose proof (isAscii_decimal (c / 10 ^ Z.of_nat j)) as Hd.
  destruct (decimal (c / 10 ^ Z.of_nat j)) as [|d ds0]; [reflexivity|].
  cbn [forallb] in Hd. apply andb_true_iff in Hd as [Hd Hds].
  destruct ds0 as [|d' ds].
  - cbn [forallb]. rewrite Hd, forallb_app, isAscii_decimal. reflexivity.
  - cbn [forallb]. rewrite Hd, !forallb_app, Hds, isAscii_decimal. reflexivity.
Qed.

Lemma isAscii_toString (x : number) : forallb isAscii (toString x) = true.
Proof.
  destruct x as [|z| |]; try reflexivity.
  unfold toString. destruct (z <? 0); [|apply isAscii_toStringNat].
  rewrite forallb_app, isAscii_toStringNat. reflexivity.
Qed.

Lemma getValidNewPipelineName_ascii (ps : list PipelineMetaData) :
  forallb isAscii (getValidNewPipelineName ps) = true
  /\ getValidNewPipelineName ps <> [].
Proof.
  unfold getValidNewPipelineName. destruct (gt _ _).
  - split; [|discriminate].
    rewrite !forallb_app, isAscii_toString. reflexivity.
  - split; [reflexivity | discriminate].
Qed.

(** X7. For every list of pipelines, the name and path that the create
    dialog is opened with pass the checks of the submit handler: submitting
    them unchanged sends the create request and shows no validation
    alert. *)
Theorem default_proposal_is_accepted
        (unicodeToLowerCase : jsstring -> jsstring)
        (projectUuid : jsstring) (st : state) (ps : list PipelineMetaData)
        (o : outcome) :
  pipelines st = Some ps -> isCreateDialogOpen st = true ->
  onSubmitCreatePipeline projectUuid
    (onCreateDialogOpened unicodeToLowerCase st) o
  = Fetch (createRequest projectUuid (getValidNewPipelineName ps)
             (getPathFromName unicodeToLowerCase (getValidNewPipelineName ps)))
    :: SetIsCreateDialogOpen false :: createSettled o.
Proof.
  intros Hps Hopen.
  destruct (getValidNewPipelineName_ascii ps) as [Hascii Hne].
  assert (Hst : createPipelineName (onCreateDialogOpened unicodeToLowerCase st)
                = getValidNewPipelineName ps
                /\ createPipelinePath (onCreateDialogOpened unicodeToLowerCase st)
                   = getPathFromName unicodeToLowerCase
                       (getValidNewPipelineName ps)).
  { unfold onCreateDialogOpened. rewrite Hps, Hopen. now split. }
  destruct Hst as [Hn Hp].
  rewrite <- Hn at 1. rewrite <- Hp.
  apply (create_accepts projectUuid _ o
           (List.map pathChar (getValidNewPipelineName ps))).
  - now rewrite Hn.
  - now apply map_nonempty.
  - rewrite Hp. now apply getPathFromName_ascii.
Qed.

Lemma default_proposal_is_accepted_witness :
  onSubmitCreatePipeline (js "project-1")
    (onCreateDialogOpened (fun s => s)
       (createForm [existing "main.orchest"] "x" "y")) Fulfilled
  = Fetch (createRequest (js "project-1")
             (getValidNewPipelineName [existing "main.orchest"])
             (getPathFromName (fun s => s)
                (getValidNewPipelineName [existing "main.orchest"])))
    :: SetIsCreateDialogOpen false :: createSettled Fulfilled.
Proof.
  apply (default_proposal_is_accepted (fun s => s) (js "project-1")
           (createForm [existing "main.orchest"] "x" "y")
           [existing "main.orchest"] Fulfilled); reflexivity.
Defined.

End DerivedPath.

(** ** The default name and path against the existing pipelines *)

Module FreshDefault.

Import Number Spec MoreSpec PipelineList JSFacts NumberFacts NameFacts.
Local Open Scope Z_scope.

Lemma pathChar_lower (c l : codeUnit) :
  isLower l = true -> pathChar c = l -> c = l \/ (c + 32)%N = l.
Proof.
  unfold pathChar, asciiLower, isLower. intros Hl H.
  apply andb_true_iff in Hl as [H1 H2].
  apply N.leb_le in H1. apply N.leb_le in H2.
  destruct (isNonWordChar _); [lia|].
  destruct (isUpper c); [right | left]; exact H.
Qed.

Lemma pathChar_digit (c d : codeUnit) :
  isDigit d = true -> pathChar c = d -> c = d.
Proof.
  unfold pathChar, asciiLower, isDigit. intros Hd H.
  apply andb_true_iff in Hd as [H1 H2].
  apply N.leb_le in H1. apply N.leb_le in H2.
  destruct (isNonWordChar _); [lia|].
  destruct (isUpper c) eqn:E; [|exact H].
  unfold isUpper in E. apply andb_true_iff in E as [E1 E2].
  apply N.leb_le in E1. lia.
Qed.

Lemma pathChar_digits (s ds : jsstring) :
  forallb isDigit ds = true -> List.map pathChar s = ds -> s = ds.
Proof.
  revert ds. induction s as [|c s IH]; intros [|d ds] Hd H;
    try discriminate; [reflexivity|].
  cbn [forallb] in Hd. apply andb_true_iff in Hd as [Hd Hds].
  cbn [List.map] in H. injection H as Hc Hs.
  now rewrite (pathChar_digit c d Hd Hc), (IH ds Hds Hs).
Qed.

Lemma pathChar_digits_fixed (ds : jsstring) :
  forallb isDigit ds = true -> List.map pathChar ds = ds.
Proof.
  induction ds as [|d ds IH]; intros H; [reflexivity|].
  cbn [forallb] in H. apply andb_true_iff in H as [Hd Hds].
  destruct (digit_word d Hd) as (_ & Hw & Hl).
  cbn [List.map]. rewrite (IH Hds). unfold pathChar. now rewrite Hl, Hw.
Qed.

Lemma afterBase_inv (s tail : jsstring) :
  afterBase s = Some tail ->
  exists m a i n,
    s = m :: a :: i :: n :: tail
    /\ eqIgnoreCase 77%N m = true /\ eqIgnoreCase 97%N a = true
    /\ eqIgnoreCase 105%N i = true /\ eqIgnoreCase 110%N n = true.
Proof.
  unfold afterBase. intros E.
  destruct s as [|m [|a [|i [|n tail']]]]; try discriminate.
  destruct (eqIgnoreCase 77%N m) eqn:Hm; [|discriminate].
  destruct (eqIgnoreCase 97%N a) eqn:Ha; [|discriminate].
  destruct (eqIgnoreCase 105%N i) eqn:Hi; [|discriminate].
  destruct (eqIgnoreCase 110%N n) eqn:Hn; [|discriminate].
  injection E as ->. now exists m, a, i, n.
Qed.

(** The path of a name that begins with the base name begins with
    "main" ... *)
Lemma pathChar_afterBase (s tail : jsstring) :
  afterBase s = Some tail ->
  List.map pathChar s = js "main" ++ List.map pathChar tail.
Proof.
  intros E.
  destruct (afterBase_inv s tail E) as (m & a & i & n & -> & Hm & Ha & Hi & Hn).
  destruct (eqIgnoreCase_lower 77%N m ltac:(tauto) Hm) as (_ & Wm & Lm).
  destruct (eqIgnoreCase_lower 97%N a ltac:(tauto) Ha) as (_ & Wa & La).
  destruct (eqIgnoreCase_lower 105%N i ltac:(tauto) Hi) as (_ & Wi & Li).
  destruct (eqIgnoreCase_lower 110%N n ltac:(tauto) Hn) as (_ & Wn & Ln).
  cbn [List.map]. unfold pathChar at 1 2 3 4.
  rewrite Wm, Wa, Wi, Wn, Lm, La, Li, Ln. reflexivity.
Qed.

Ltac base_letter H :=
  match type of H with
  | pathChar ?c = ?l =>
      let Hc := fresh "Hc" in
      destruct (pathChar_lower c l eq_refl H) as [Hc | Hc];
      [rewrite Hc; reflexivity
      | replace c with (l - 32)%N by lia; reflexivity]
  end.

(** ... and only such a name has a path that begins with "main". *)
Lemma pathChar_Main (s tail : jsstring) :
  List.map pathChar s = List.map pathChar (js "Main" ++ tail) ->
  exists tail',
    afterBase s = Some tail'
    /\ List.map pathChar tail' = List.map pathChar tail.
Proof.
  change (js "Main" ++ tail) with (77 :: 97 :: 105 :: 110 :: tail)%N.
  intros H. destruct s as [|m [|a [|i [|n tail']]]]; try discriminate H.
  cbn [List.map] in H. injection H as Hm Ha Hi Hn Ht.
  change (pathChar 77%N) with 109%N in Hm.
  change (pathChar 97%N) with 97%N in Ha.
  change (pathChar 105%N) with 105%N in Hi.
  change (pathChar 110%N) with 110%N in Hn.
  exists tail'. split; [|exact Ht].
  assert (Em : eqIgnoreCase 77%N m = true) by base_letter Hm.
  assert (Ea : eqIgnoreCase 97%N a = true) by base_letter Ha.
  assert (Ei : eqIgnoreCase 105%N i = true) by base_letter Hi.
  assert (En : eqIgnoreCase 110%N n = true) by base_letter Hn.
  unfold afterBase. now rewrite Em, Ea, Ei, En.
Qed.

Lemma getValidNewPipelineName_base (ps : list PipelineMetaData) :
  exists tail, getValidNewPipelineName ps = js "Main" ++ tail.
Proof.
  unfold getValidNewPipelineName. destruct (gt _ _).
  - now exists (js " " ++ toString (add (fold_left largerNumber ps (Num (-1)))
                                     (Num 1))).
  - now exists [].
Qed.

Lemma matchesBase_default (ps : list PipelineMetaData) :
  matchesBase (getValidNewPipelineName ps) = true.
Proof.
  destruct (getValidNewPipelineName_base ps) as [tail ->].
  unfold matchesBase. now rewrite afterBase_Main.
Qed.

Section Paths.

Variable unicodeToLowerCase : jsstring -> jsstring.

(** A path derived from an ASCII name is the default path only if the
    name begins with the base name. *)
Lemma default_path_base (ps : list PipelineMetaData) (x : jsstring) :
  forallb isAscii x = true ->
  getPathFromName unicodeToLowerCase x
  = getPathFromName unicodeToLowerCase (getValidNewPipelineName ps) ->
  matchesBase x = true.
Proof.
  intros Hx Heq.
  rewrite (DerivedPath.getPathFromName_ascii _ x Hx) in Heq.
  rewrite (DerivedPath.getPathFromName_ascii _ _
             (proj1 (DerivedPath.getValidNewPipelineName_ascii ps))) in Heq.
  apply app_inv_tail in Heq.
  destruct (getValidNewPipelineName_base ps) as [tail Htail].
  rewrite Htail in Heq.
  destruct (pathChar_Main x tail Heq) as (tail' & E & _).
  unfold matchesBase. now rewrite E.
Qed.

(** The names whose derived path is that of the proposed name. *)
Lemma proposed_path_taken (ps : list PipelineMetaData) (p : PipelineMetaData) :
  In p ps -> forallb isAscii (name p) = true ->
  getPathFromName unicodeToLowerCase (name p)
  = getPathFromName unicodeToLowerCase (proposedName ps) ->
  forallb isAscii (proposedName ps) = true ->
  exists c m,
    proposedName ps = js "Main " ++ decimal m
    /\ afterBase (name p) = Some (c :: decimal m)
    /\ c <> 32%N /\ pathChar c = 95%N.
Proof.
  intros Hin Hx Heq Hy.
  rewrite (DerivedPath.getPathFromName_ascii _ _ Hx) in Heq.
  rewrite (DerivedPath.getPathFromName_ascii _ _ Hy) in Heq.
  apply app_inv_tail in Heq.
  destruct (proposedName_suffix ps) as (k & Hk & Hlt).
  unfold proposedName in *. destruct (suffixes ps) as [|n ns] eqn:E.
  - exfalso.
    destruct (pathChar_Main (name p) [] Heq) as (tail' & Ht & _).
    assert (Hs : numericSuffix (name p)
                 = Some (digitsVal (suffixDigits tail'))).
    { unfold numericSuffix. now rewrite Ht. }
    pose proof (in_suffixes ps p _ Hin Hs) as Hmem.
    rewrite E in Hmem. destruct Hmem.
  - set (m := fold_right Z.max n ns + 1) in *.
    assert (Hm : 0 <= m).
    { specialize (Hlt n (or_introl eq_refl)).
      pose proof (fold_right_max_ge n ns n (or_introl eq_refl)). lia. }
    rewrite (numericSuffix_Main_decimal m Hm) in Hk. injection Hk as <-.
    change (js "Main " ++ decimal m)
      with (js "Main" ++ 32%N :: decimal m) in Heq.
    destruct (pathChar_Main (name p) _ Heq) as (tail' & Ht & Htail).
    cbn [List.map] in Htail.
    rewrite (pathChar_digits_fixed _ (decimal_digits m Hm)) in Htail.
    change (pathChar 32%N) with 95%N in Htail.
    destruct tail' as [|c ds]; [discriminate Htail|].
    cbn [List.map] in Htail. injection Htail as Hc Hds.
    apply (pathChar_digits ds _ (decimal_digits m Hm)) in Hds. subst ds.
    exists c, m. repeat split; try assumption.
    intros ->.
    assert (Hs : numericSuffix (name p) = Some m).
    { unfold numericSuffix. rewrite Ht. unfold suffixDigits.
      rewrite N.eqb_refl, takeWhile_all by now apply decimal_digits.
      now rewrite decimal_value. }
    pose proof (in_suffixes ps p m Hin Hs) as Hmem. rewrite E in Hmem.
    specialize (Hlt m Hmem). lia.
Qed.

(** A name made of the base name, one code unit that the path turns into
    "_" and the digits of the default name has the default path. *)
Lemma separator_path (x y : jsstring) (c : codeUnit) (ds : jsstring) :
  forallb isAscii x = true -> forallb isAscii y = true ->
  y = js "Main " ++ ds ->
  afterBase x = Some (c :: ds) -> pathChar c = 95%N ->
  getPathFromName unicodeToLowerCase x = getPathFromName unicodeToLowerCase y.
Proof.
  intros Hx Hy Ey Ex Hc.
  rewrite (DerivedPath.getPathFromName_ascii _ _ Hx).
  rewrite (DerivedPath.getPathFromName_ascii _ _ Hy).
  f_equal. rewrite (pathChar_afterBase x _ Ex). subst y.
  cbn [List.map]. rewrite Hc. reflexivity.
Qed.

End Paths.

(** C2 (as amended). The default name begins with "Main", so it differs
    from every existing name that does not (in any letter case), and the
    default path differs from the path of every existing pipeline that has
    such a name, in ASCII, and is stored at the path [getPathFromName]
    gives its name.  When every numeric suffix of a matching name is a
    safe integer (below 2^53), the default name differs from every
    existing name; the default path differs from the path of every
    existing pipeline named "Main" or "Main N" and stored at its derived
    path; and an existing pipeline with an ASCII name, stored at its
    derived path, has the default path exactly when the default name is
    "Main M" and its name is "Main" in any letter case, one character
    other than a space that the path renders as "_", and the digits of M
    ("main_1" or "Main-1" for "Main 1").  Whenever an existing pipeline has
    the default path, the create dialog opens with [isPathTaken] set, the
    helper text "File already exists" and the submit button disabled. *)
Theorem default_name_and_path_fresh
        (unicodeToLowerCase : jsstring -> jsstring)
        (pipelines : list PipelineMetaData) :
  let newName := getValidNewPipelineName pipelines in
  let newPath := getPathFromName unicodeToLowerCase newName in
  (forall p, In p pipelines -> matchesBase (name p) = false ->
     name p <> newName
     /\ (forallb isAscii (name p) = true ->
         path p = getPathFromName unicodeToLowerCase (name p) ->
         path p <> newPath))
  /\ (Forall safeInteger (suffixes pipelines) ->
      forall p, In p pipelines ->
        name p <> newName
        /\ (isDefaultName (name p) = true ->
            path p = getPathFromName unicodeToLowerCase (name p) ->
            path p <> newPath)
        /\ (forallb isAscii (name p) = true ->
            path p = getPathFromName unicodeToLowerCase (name p) ->
            (path p = newPath
             <-> exists c m,
                   newName = js "Main " ++ decimal m
                   /\ afterBase (name p) = Some (c :: decimal m)
                   /\ c <> 32%N /\ pathChar c = 95%N)))
  /\ (forall st p,
        PipelineList.pipelines st = Some pipelines ->
        isCreateDialogOpen st = true ->
        In p pipelines ->
        path p = newPath ->
        let st' := onCreateDialogOpened unicodeToLowerCase st in
        isPathTaken st' = true
        /\ pathHelperText st' = js "File already exists"
        /\ forall isOperating, createButtonDisabled st' isOperating = true).
Proof.
  intros newName newPath. subst newName newPath.
  pose proof (DerivedPath.getValidNewPipelineName_ascii pipelines)
    as [Hascii _].
  split; [|split].
  - intros p Hin Hbase. split.
    + intros Heq. rewrite Heq, matchesBase_default in Hbase.
      discriminate Hbase.
    + intros Hx -> Heq.
      rewrite (default_path_base unicodeToLowerCase pipelines _ Hx Heq)
        in Hbase.
      discriminate Hbase.
  - intros Hsafe p Hin.
    rewrite (getValidNewPipelineName_safe _ Hsafe) in *.
    split; [now apply proposed_name_fresh | split].
    + intros Hdef ->. now apply proposed_path_fresh.
    + intros Hx ->. split.
      * intros Heq.
        now apply (proposed_path_taken unicodeToLowerCase pipelines p).
      * intros (c & m & Hname & Hafter & _ & Hc).
        now apply (separator_path unicodeToLowerCase (name p)
                     (proposedName pipelines) c (decimal m)).
  - intros st p Hps Hopen Hin Hpath st'.
    assert (Htaken : isPathTaken st' = true).
    { subst st'. unfold onCreateDialogOpened, isPathTaken.
      rewrite Hps, Hopen. cbn [PipelineList.pipelines createPipelinePath].
      apply existsb_exists. exists p. split; [assumption|].
      now apply streq_eq. }
    unfold pathHelperText, createButtonDisabled. rewrite Htaken.
    repeat split.
Qed.

Lemma default_name_and_path_fresh_witness :
  (js "Train" <> getValidNewPipelineName threePipelines
   /\ js "train.orchest"
      <> getPathFromName (fun s => s) (getValidNewPipelineName threePipelines))
  /\ (js "Main 1" <> getValidNewPipelineName threePipelines
      /\ js "main_1.orchest"
         <> getPathFromName (fun s => s)
              (getValidNewPipelineName threePipelines))
  /\ (exists c m,
        getValidNewPipelineName threePipelines = js "Main " ++ decimal m
        /\ afterBase (js "main_2") = Some (c :: decimal m)
        /\ c <> 32%N /\ pathChar c = 95%N)
  /\ isPathTaken
       (onCreateDialogOpened (fun s => s)
          (createForm threePipelines "Main" "main.orchest")) = true.
Proof.
  destruct (default_name_and_path_fresh (fun s => s) threePipelines)
    as (Hother & Hsafe & Hguard).
  assert (Hbound : Forall safeInteger (suffixes threePipelines))
    by (repeat constructor).
  split; [|split; [|split]].
  - destruct (Hother (pipelineNamed "Train" "train.orchest")
                (or_introl eq_refl) eq_refl) as [Hname Hpath].
    split; [exact Hname | now apply Hpath].
  - destruct (Hsafe Hbound (pipelineNamed "Main 1" "main_1.orchest")
                (or_intror (or_introl eq_refl))) as (Hname & Hpath & _).
    split; [exact Hname | now apply Hpath].
  - destruct (Hsafe Hbound (pipelineNamed "main_2" "main_2.orchest")
                (or_intror (or_intror (or_introl eq_refl))))
      as (_ & _ & Hshape).
    apply (Hshape eq_refl eq_refl). vm_compute. reflexivity.
  - apply (Hguard (createForm threePipelines "Main" "main.orchest")
             (pipelineNamed "main_2" "main_2.orchest") eq_refl eq_refl).
    + right. right. left. reflexivity.
    + vm_compute. reflexivity.
Defined.

End FreshDefault.

(** ** The create, rename and delete flows *)

Module Flows.

Import Spec MoreSpec PipelineList PipelineView JSFacts.

(** X8. A submission that fails validation changes nothing in the state
    of the view: the dialog stays open with what was typed.  This holds for
    a create with an empty name, an empty path, the path ".orchest" or a
    path without the extension, and for a rename to a path without the
    extension; a rename submitted while no pipeline is being edited does
    nothing at all. *)
Theorem rejected_submission_keeps_state (projectUuid : jsstring) (st : state)
        (o : outcome) :
  (createPipelineName st = []
   \/ createPipelinePath st = []
   \/ createPipelinePath st = js ".orchest"
   \/ endsWith (createPipelinePath st) (js ".orchest") = false ->
   applyEffects st (onSubmitCreatePipeline projectUuid st o) = st)
  /\ (forall e, pipelineInEdit st = Some e ->
        endsWith (editPath e) (js ".orchest") = false ->
        applyEffects st (onSubmitEditPipelinePathModal projectUuid st o) = st)
  /\ (pipelineInEdit st = None ->
      onSubmitEditPipelinePathModal projectUuid st o = []).
Proof.
  repeat split.
  - intros H. unfold onSubmitCreatePipeline.
    destruct (createPipelineName st) as [|c n]; [reflexivity|].
    destruct H as [H | [H | [H | H]]]; [discriminate | | |]; rewrite H;
      try reflexivity.
    cbn [negb]. destruct (_ || _); reflexivity.
  - intros e He Hext. unfold onSubmitEditPipelinePathModal.
    now rewrite He, Hext.
  - intros He. unfold onSubmitEditPipelinePathModal. now rewrite He.
Qed.

Lemma rejected_submission_keeps_state_witness :
  applyEffects (createForm [] "Main" "main.txt")
    (onSubmitCreatePipeline (js "project-1")
       (createForm [] "Main" "main.txt") Fulfilled)
  = createForm [] "Main" "main.txt".
Proof.
  apply (proj1 (rejected_submission_keeps_state (js "project-1")
                  (createForm [] "Main" "main.txt") Fulfilled)).
  right. right. right. reflexivity.
Defined.

Lemma not_in_createSettled_rejected (e : rejection) :
  ~ In RequestFetchPipelines (createSettled (Rejected e))
  /\ existsb isFetch (createSettled (Rejected e)) = false.
Proof.
  unfold createSettled. destruct (negb (isCanceled e)).
  - destruct (responseText e); split; try reflexivity;
      intros [H | []]; discriminate H.
  - split; [intros [] | reflexivity].
Qed.

(** X9. Create and rename send at most one request per submission, and
    the pipeline list is fetched again exactly when a request was sent and
    it succeeded. *)
Theorem one_request_then_refresh (projectUuid : jsstring) (st : state)
        (o : outcome) :
  let created := onSubmitCreatePipeline projectUuid st o in
  let renamed := onSubmitEditPipelinePathModal projectUuid st o in
  (length (filter isFetch created) <= 1
   /\ (In RequestFetchPipelines created
       <-> existsb isFetch created = true /\ o = Fulfilled))
  /\ (length (filter isFetch renamed) <= 1
      /\ (In RequestFetchPipelines renamed
          <-> existsb isFetch renamed = true /\ o = Fulfilled)).
Proof.
  intros created renamed. subst created renamed. split.
  - unfold onSubmitCreatePipeline.
    destruct (createPipelineName st) as [|c n].
    { split; [cbn; lia|]. split; [intros [H | []]; discriminate H|].
      intros [H _]. discriminate H. }
    destruct (_ || _).
    { split; [cbn; lia|]. split; [intros [H | []]; discriminate H|].
      intros [H _]. discriminate H. }
    destruct (negb (endsWith _ _)).
    { split; [cbn; lia|]. split; [intros [H | []]; discriminate H|].
      intros [H _]. discriminate H. }
    fold (createSettled o). destruct o as [|e].
    + split; [cbn; lia|]. split; [now split|]. intros _. cbn. tauto.
    + destruct (not_in_createSettled_rejected e) as [Hno Hf].
      split.
      * cbn [app filter isFetch length].
        assert (Hz : filter isFetch (createSettled (Rejected e)) = []).
        { destruct (filter isFetch _) as [|x l] eqn:E; [reflexivity|].
          assert (Hin : In x (filter isFetch (createSettled (Rejected e))))
            by (rewrite E; now left).
          apply filter_In in Hin as [Hin Hx].
          assert (existsb isFetch (createSettled (Rejected e)) = true)
            by (apply existsb_exists; now exists x).
          congruence. }
        rewrite Hz. cbn. lia.
      * split; [|intros [_ H]; discriminate H].
        intros [H | [H | H]]; [discriminate H | discriminate H | now apply Hno in H].
  - unfold onSubmitEditPipelinePathModal.
    destruct (pipelineInEdit st) as [edit|].
    2:{ split; [cbn; lia|]. split; [intros []|]. intros [H _]. discriminate H. }
    destruct (negb (endsWith _ _)).
    { split; [cbn; lia|]. split; [intros [H | []]; discriminate H|].
      intros [H _]. discriminate H. }
    destruct o as [|e].
    + split; [cbn; lia|]. split; [now split|]. intros _. cbn. tauto.
    + destruct (responseText e) as [| |message code];
        try destruct (getProperty (getErrorMessages (editPath edit)) code);
        (split; [cbn; lia|]);
        (split; [|intros [_ H]; discriminate H]);
        cbn; intros H; repeat destruct H as [H | H]; try discriminate H;
        destruct H.
Qed.

(** *** Error codes of the rename endpoint *)

Lemma getOwnProperty_known (path key : jsstring) :
  getOwnProperty (getErrorMessages path) key <> None <-> In key knownCodes.
Proof.
  unfold getErrorMessages, knownCodes. cbn [getOwnProperty]. split.
  - intros H.
    repeat match type of H with
           | context [streq ?k key] =>
               let E := fresh "E" in
               destruct (streq k key) eqn:E;
               [apply streq_eq in E; rewrite <- E; cbn; tauto|]
           end.
    congruence.
  - intros H. cbn in H.
    repeat destruct H as [H | H]; try (subst key; cbn; discriminate).
    destruct H.
Qed.

Lemma existsb_streq (key : jsstring) (l : list jsstring) :
  existsb (streq key) l = true <-> In key l.
Proof.
  rewrite existsb_exists. split.
  - intros (x & Hx & E). apply streq_eq in E. now subst x.
  - intros H. exists key. split; [exact H | apply streq_refl].
Qed.

Lemma knownCodes_not_inherited (key : jsstring) :
  In key knownCodes -> ~ In key objectPrototypeKeys.
Proof.
  intros H Hp. apply existsb_streq in Hp. cbn in H.
  repeat destruct H as [H | H];
    try (subst key; vm_compute in Hp; discriminate Hp).
  destruct H.
Qed.

Lemma getProperty_cases (path key : jsstring) :
  (In key knownCodes
   <-> exists m, getProperty (getErrorMessages path) key = StringValue m)
  /\ (In key objectPrototypeKeys
      <-> getProperty (getErrorMessages path) key = InheritedValue key)
  /\ (~ In key knownCodes /\ ~ In key objectPrototypeKeys
      <-> getProperty (getErrorMessages path) key = UndefinedValue).
Proof.
  pose proof (getOwnProperty_known path key) as Hown.
  pose proof (existsb_streq key objectPrototypeKeys) as Hinh.
  pose proof (knownCodes_not_inherited key) as Hdis.
  unfold getProperty.
  destruct (getOwnProperty (getErrorMessages path) key) as [m|].
  - assert (Hk : In key knownCodes) by (apply Hown; discriminate).
    repeat split; try (intros; discriminate); try tauto.
    intros _. now exists m.
  - assert (Hk : ~ In key knownCodes) by (intros H; now apply Hown in H).
    destruct (existsb (streq key) objectPrototypeKeys).
    + assert (Hp : In key objectPrototypeKeys) by now apply Hinh.
      repeat split; try (intros; discriminate); try tauto.
      intros [m H]. discriminate H.
    + assert (Hp : ~ In key objectPrototypeKeys).
      { intros H. apply Hinh in H. discriminate H. }
      repeat split; try (intros; discriminate); try tauto.
      intros [m H]. discriminate H.
Qed.

(** X10. Looking a code up in [getErrorMessages] gives a message
    exactly for the codes 0 to 6, a member of [Object.prototype] exactly
    for the names the object inherits ("constructor", "toString",
    "__proto__", ...), and [undefined] for every other code.  A rename that
    the server rejects with a code that has no message still raises the
    alert and closes the dialog: the content of the alert is [undefined],
    or the inherited member if the code is one of the inherited names. *)
Theorem rename_unknown_code (projectUuid : jsstring) (st : state)
        (edit : editing) (e : rejection) (message code : jsstring) :
  pipelineInEdit st = Some edit ->
  endsWith (editPath edit) (js ".orchest") = true ->
  responseText e = JsonValue message code ->
  (forall path key,
     (In key knownCodes
      <-> exists m, getProperty (getErrorMessages path) key = StringValue m)
     /\ (In key objectPrototypeKeys
         <-> getProperty (getErrorMessages path) key = InheritedValue key)
     /\ (~ In key knownCodes /\ ~ In key objectPrototypeKeys
         <-> getProperty (getErrorMessages path) key = UndefinedValue))
  /\ (~ In code knownCodes -> ~ In code objectPrototypeKeys ->
      onSubmitEditPipelinePathModal projectUuid st (Rejected e)
      = [Fetch (renameRequest projectUuid (editUuid edit) (editPath edit));
         SetAlert (js "Error") None;
         SetIsEditingPipelinePath false])
  /\ (In code objectPrototypeKeys ->
      onSubmitEditPipelinePathModal projectUuid st (Rejected e)
      = [Fetch (renameRequest projectUuid (editUuid edit) (editPath edit));
         SetAlertInherited (js "Error") code;
         SetIsEditingPipelinePath false]).
Proof.
  intros Hedit Hext Hbody. split; [apply getProperty_cases|].
  destruct (getProperty_cases (editPath edit) code) as (_ & Hinh & Hundef).
  unfold onSubmitEditPipelinePathModal.
  rewrite Hedit, Hext, Hbody. cbn [negb app]. split.
  - intros Hk Hp.
    rewrite (proj1 Hundef (conj Hk Hp)). reflexivity.
  - intros Hp. rewrite (proj1 Hinh Hp). reflexivity.
Qed.

Lemma rename_unknown_code_witness :
  onSubmitEditPipelinePathModal (js "project-1")
    (renameForm "uuid-1" "other.orchest") (serverError "undefined")
  = [Fetch (renameRequest (js "project-1") (js "uuid-1") (js "other.orchest"));
     SetAlert (js "Error") None;
     SetIsEditingPipelinePath false]
  /\ onSubmitEditPipelinePathModal (js "project-1")
       (renameForm "uuid-1" "other.orchest") (serverError "toString")
     = [Fetch (renameRequest (js "project-1") (js "uuid-1")
                 (js "other.orchest"));
        SetAlertInherited (js "Error") (js "toString");
        SetIsEditingPipelinePath false].
Proof.
  split.
  - apply (rename_unknown_code (js "project-1")
             (renameForm "uuid-1" "other.orchest")
             {| editUuid := js "uuid-1"; editPath := js "other.orchest" |}
             {| isCanceled := false;
                responseText := JsonValue (js "undefined") (js "undefined") |}
             (js "undefined") (js "undefined") eq_refl eq_refl eq_refl).
    + cbn. intros H. repeat destruct H as [H | H]; try discriminate H. exact H.
    + cbn. intros H. repeat destruct H as [H | H]; try discriminate H. exact H.
  - apply (rename_unknown_code (js "project-1")
             (renameForm "uuid-1" "other.orchest")
             {| editUuid := js "uuid-1"; editPath := js "other.orchest" |}
             {| isCanceled := false;
                responseText := JsonValue (js "undefined") (js "toString") |}
             (js "undefined") (js "toString") eq_refl eq_refl eq_refl).
    cbn. do 5 right. left. reflexivity.
Defined.

(** *** Delete *)

Lemma filter_requests (projectUuid : jsstring) (f : effect -> bool)
      (selected : list (jsstring * settlement)) (tail : list effect) :
  (forall r, f (Fetch r) = false) ->
  filter f
    (List.map (fun s => Fetch (requestDeletePipelines projectUuid (fst s)))
              selected ++ tail)
  = filter f tail.
Proof.
  intros Hf. induction selected as [|s l IH]; [reflexivity|].
  cbn [List.map app filter]. now rewrite Hf.
Qed.

(** X11. The confirmation callback of a delete calls [resolve] exactly
    once, with [true] if and only if no request was rejected, and it shows
    one alert if some request was rejected and none otherwise, however many
    requests fail. *)
Theorem delete_resolves_once (projectUuid : jsstring)
        (selected : list (jsstring * settlement)) :
  let trace := onConfirmDelete projectUuid selected in
  filter isResolve trace
  = [Resolve (negb (existsb rejects (List.map snd selected)))]
  /\ length (filter isSetAlert trace)
     = if existsb rejects (List.map snd selected) then 1 else 0.
Proof.
  intros trace. subst trace. unfold onConfirmDelete.
  rewrite !filter_requests by reflexivity.
  destruct (firstRejection (List.map snd selected)) as [[t e]|] eqn:E.
  - destruct (existsb rejects (List.map snd selected)) eqn:R.
    + split; reflexivity.
    + apply Submissions.firstRejection_none in R. congruence.
  - apply Submissions.firstRejection_none in E. rewrite E. split; reflexivity.
Qed.

(** *** The rename dialog *)

Lemma last_cons_default (j : jsstring) (edits : list jsstring)
      (x d1 d2 : jsstring) :
  last (j :: edits) d1 = last (x :: j :: edits) d2.
Proof.
  revert j x. induction edits as [|k edits IH]; intros j x; [reflexivity|].
  change (last (k :: edits) d1 = last (j :: k :: edits) d2). apply IH.
Qed.

Lemma typeEditPath_spec (edits : list jsstring) :
  forall st uuid path,
    pipelineInEdit st = Some {| editUuid := uuid; editPath := path |} ->
    typeEditPath edits st
    = {| pipelines := pipelines st;
         pipelineInEdit :=
           Some {| editUuid := uuid; editPath := last edits path |};
         isCreateDialogOpen := isCreateDialogOpen st;
         isEditingPipelinePath := isEditingPipelinePath st;
         createPipelineName := createPipelineName st;
         createPipelinePath := createPipelinePath st |}.
Proof.
  unfold typeEditPath.
  induction edits as [|v edits IH]; intros st uuid path Hedit.
  - cbn [fold_left last]. rewrite <- Hedit. now destruct st.
  - cbn [fold_left].
    rewrite (IH (onChangeEditPath v st) uuid v).
    + cbn [onChangeEditPath pipelines isCreateDialogOpen isEditingPipelinePath
           createPipelineName createPipelinePath].
      do 3 f_equal.
      destruct edits as [|j edits]; [reflexivity|].
      apply last_cons_default.
    + unfold onChangeEditPath. cbn [pipelineInEdit]. now rewrite Hedit.
Qed.

(** X12. Clicking the edit button of a row opens the rename dialog on
    that row, whatever the state was; typing in the path field changes the
    path in edit and nothing else of the state (the pipelines, the create
    dialog and its two fields stay as they were); and submitting a path
    that ends in ".orchest" sends one PUT request for the uuid of the row
    with the path typed last. *)
Theorem rename_flow (projectUuid uuid path : jsstring) (st : state)
        (edits : list jsstring) (o : outcome) :
  let typed := typeEditPath edits (applyEffects st (onEditClick uuid path)) in
  typed
  = {| pipelines := pipelines st;
       pipelineInEdit :=
         Some {| editUuid := uuid; editPath := last edits path |};
       isCreateDialogOpen := isCreateDialogOpen st;
       isEditingPipelinePath := true;
       createPipelineName := createPipelineName st;
       createPipelinePath := createPipelinePath st |}
  /\ editDialogOpen typed = true
  /\ pipelineInEdit typed
     = Some {| editUuid := uuid; editPath := last edits path |}
  /\ (endsWith (last edits path) (js ".orchest") = true ->
      filter isFetch (onSubmitEditPipelinePathModal projectUuid typed o)
      = [Fetch (renameRequest projectUuid uuid (last edits path))]).
Proof.
  intros typed. subst typed.
  rewrite (typeEditPath_spec edits (applyEffects st (onEditClick uuid path))
             uuid path eq_refl).
  cbn [applyEffects onEditClick fold_left applyEffect pipelines
       isCreateDialogOpen isEditingPipelinePath createPipelineName
       createPipelinePath].
  repeat split.
  intros Hext. unfold onSubmitEditPipelinePathModal.
  cbn [pipelineInEdit editPath editUuid]. rewrite Hext. cbn [negb].
  destruct o as [|e]; [reflexivity|].
  destruct (responseText e) as [| |message code]; try reflexivity.
  destruct (getProperty _ code); reflexivity.
Qed.

Lemma rename_flow_witness :
  typeEditPath [js "b"; js "b.orchest"]
    (applyEffects initialState (onEditClick (js "uuid-1") (js "a.orchest")))
  = {| pipelines := pipelines initialState;
       pipelineInEdit :=
         Some {| editUuid := js "uuid-1"; editPath := js "b.orchest" |};
       isCreateDialogOpen := isCreateDialogOpen initialState;
       isEditingPipelinePath := true;
       createPipelineName := createPipelineName initialState;
       createPipelinePath := createPipelinePath initialState |}
  /\ filter isFetch
       (onSubmitEditPipelinePathModal (js "project-1")
          (typeEditPath [js "b"; js "b.orchest"]
             (applyEffects initialState
                (onEditClick (js "uuid-1") (js "a.orchest")))) Fulfilled)
     = [Fetch (renameRequest (js "project-1") (js "uuid-1")
                 (js "b.orchest"))].
Proof.
  destruct (rename_flow (js "project-1") (js "uuid-1") (js "a.orchest")
              initialState [js "b"; js "b.orchest"] Fulfilled)
    as (Hstate & _ & _ & Hput).
  split; [exact Hstate | apply Hput; reflexivity].
Defined.

(** *** Rows *)

(** X13. The rows of the table are the pipelines in the order they were
    fetched, one row per pipeline with its name, path and uuid, and the
    session status plays no part in [isPathTaken]: computed over the rows
    it is what it is over the pipelines. *)
Theorem pipelineRows_keep_pipelines
        (getSession : jsstring -> jsstring -> option jsstring)
        (projectUuid : jsstring) (st : state) :
  let rows := pipelineRows getSession projectUuid (pipelines st) in
  rowsPathTaken rows st = isPathTaken st
  /\ List.map (fun row => (rowName row, rowPath row, rowUuid row)) rows
     = List.map (fun p => (name p, path p, uuid p))
                (match pipelines st with Some ps => ps | None => [] end).
Proof.
  intros rows. subst rows. unfold rowsPathTaken, isPathTaken, pipelineRows.
  generalize (match pipelines st with Some ps => ps | None => [] end).
  intros ps. split.
  - induction ps as [|p ps IH]; [reflexivity|].
    cbn [List.map existsb rowPath]. now rewrite IH.
  - induction ps as [|p ps IH]; [reflexivity|].
    cbn [List.map rowName rowPath rowUuid]. now rewrite IH.
Qed.

End Flows.

(** ** The path field of the rename dialog *)

Module PathField.

Import Spec MoreSpec PipelineList PipelineView JSFacts DerivedPath.
Local Open Scope Z_scope.

Lemma startsWith_app (pat b : jsstring) : startsWith (pat ++ b) pat = true.
Proof.
  induction pat as [|p pat IH]; [now destruct b|].
  cbn [app startsWith]. now rewrite N.eqb_refl, IH.
Qed.

Lemma startsWith_inv (pat : jsstring) :
  forall s, startsWith s pat = true -> exists b, s = pat ++ b.
Proof.
  induction pat as [|p pat IH]; intros s H; [now exists s|].
  destruct s as [|c s]; [discriminate|]. cbn [startsWith] in H.
  apply andb_true_iff in H as [Hc Hs]. apply N.eqb_eq in Hc. subst c.
  destruct (IH s Hs) as [b ->]. now exists b.
Qed.

Lemma indexOfFrom_unfold (pat : jsstring) (i : Z) (s : jsstring) :
  indexOfFrom pat i s
  = if startsWith s pat then i
    else match s with
         | [] => -1
         | _ :: s' => indexOfFrom pat (i + 1) s'
         end.
Proof. destruct s; reflexivity. Qed.

Lemma indexOfFrom_bounds (pat a b : jsstring) :
  forall i,
    i <= indexOfFrom pat i (a ++ pat ++ b) <= i + Z.of_nat (length a).
Proof.
  induction a as [|x a IH]; intros i; rewrite indexOfFrom_unfold.
  - cbn [app]. rewrite startsWith_app. cbn [length]. lia.
  - destruct (startsWith _ pat); [cbn [length]; lia|].
    cbn [app]. specialize (IH (i + 1)). cbn [length]. lia.
Qed.

Lemma indexOfFrom_absent (pat : jsstring) (s : jsstring) :
  ~ occursIn pat s -> forall i, indexOfFrom pat i s = -1.
Proof.
  induction s as [|x s IH]; intros Hno i; rewrite indexOfFrom_unfold.
  - destruct (startsWith [] pat) eqn:E; [|reflexivity].
    exfalso. apply Hno. destruct (startsWith_inv pat [] E) as [b Hb].
    exists [], b. exact Hb.
  - destruct (startsWith (x :: s) pat) eqn:E.
    + exfalso. apply Hno. destruct (startsWith_inv pat _ E) as [b Hb].
      exists [], b. exact Hb.
    + apply IH. intros (a & b & ->). apply Hno. now exists (x :: a), b.
Qed.

Lemma indexOfFrom_first (p : codeUnit) (pat stem b : jsstring) :
  ~ In p stem ->
  forall i,
    indexOfFrom (p :: pat) i (stem ++ (p :: pat) ++ b)
    = i + Z.of_nat (length stem).
Proof.
  induction stem as [|x stem IH]; intros Hno i; rewrite indexOfFrom_unfold.
  - rewrite app_nil_l, startsWith_app. cbn [length]. lia.
  - cbn [app startsWith].
    destruct (N.eqb_spec x p) as [-> | Hx]; [exfalso; apply Hno; now left|].
    cbn [andb]. rewrite IH by (intros H; apply Hno; now right).
    cbn [length]. lia.
Qed.

(** [indexOf]: a value without ".orchest" in it gives -1 and no other
    does; in a value [stem ++ ".orchest" ++ rest] the index is at most the
    length of [stem], and exactly that when [stem] has no dot. *)
Lemma indexOf_extension (value stem rest : jsstring) :
  (indexOf value (js ".orchest") = -1 <-> ~ occursIn (js ".orchest") value)
  /\ 0 <= indexOf (stem ++ js ".orchest" ++ rest) (js ".orchest")
       <= Z.of_nat (length stem)
  /\ (~ In 46%N stem ->
      indexOf (stem ++ js ".orchest" ++ rest) (js ".orchest")
      = Z.of_nat (length stem)).
Proof.
  unfold indexOf. repeat split.
  - intros H (a & b & ->).
    pose proof (indexOfFrom_bounds (js ".orchest") a b 0). lia.
  - intros H. now apply indexOfFrom_absent.
  - apply (indexOfFrom_bounds (js ".orchest") stem rest 0).
  - apply (indexOfFrom_bounds (js ".orchest") stem rest 0).
  - intros Hno.
    apply (indexOfFrom_first 46%N (js "orchest") stem rest Hno 0).
Qed.

(** X14. When the path field takes the focus, with a value that is not
    empty, it puts the selection at [k] where [k] is -1 exactly when the
    value has no ".orchest" in it; for a value [stem ++ ".orchest"] the
    selection is nowhere after the extension begins, and right before it
    when [stem] has no dot. *)
Theorem pathField_selection (c : codeUnit) (v : jsstring) :
  exists k,
    pathFieldEffect true (Some (c :: v)) false
    = (true, [Focus; SetSelectionRange k k])
    /\ (k = -1 <-> ~ occursIn (js ".orchest") (c :: v))
    /\ (forall stem, c :: v = stem ++ js ".orchest" ->
        0 <= k <= Z.of_nat (length stem)
        /\ (~ In 46%N stem -> k = Z.of_nat (length stem))).
Proof.
  exists (indexOf (c :: v) (js ".orchest")). split; [reflexivity|].
  split; [apply (indexOf_extension (c :: v) [] [])|].
  intros stem Hstem. rewrite Hstem.
  destruct (indexOf_extension [] stem []) as (_ & Hb & He).
  rewrite app_nil_r in Hb, He. now split.
Qed.

Lemma pathFieldEffect_initialized (hasInput : bool) (value : option jsstring) :
  pathFieldEffect hasInput value true = (true, []).
Proof.
  unfold pathFieldEffect. destruct value as [[|c v]|]; try reflexivity.
  now rewrite andb_false_r.
Qed.

Lemma pathFieldRenders_initialized (renders : list (bool * option jsstring)) :
  pathFieldRenders renders true = (true, []).
Proof.
  induction renders as [|[h v] renders IH]; [reflexivity|].
  cbn [pathFieldRenders]. now rewrite pathFieldEffect_initialized, IH.
Qed.

(** X15. While the path field stays mounted it takes the focus at most
    once: at the first render in which the input element is there and the
    value is not empty, and the selection is then put at the first
    ".orchest" of that value. Later renders, and renders before it, do
    nothing. *)
Theorem pathField_focuses_once (renders : list (bool * option jsstring)) :
  pathFieldRenders renders false
  = match find eligible renders with
    | Some (_, Some value) =>
        (true,
         [Focus;
          SetSelectionRange (indexOf value (js ".orchest"))
                            (indexOf value (js ".orchest"))])
    | _ => (false, [])
    end.
Proof.
  induction renders as [|[h v] renders IH]; [reflexivity|].
  cbn [pathFieldRenders find]. unfold eligible at 1. cbn [fst snd].
  assert (Hskip :
    (let '(i2, out2) := pathFieldRenders renders false in (i2, [] ++ out2))
    = match find eligible renders with
      | Some (_, Some value) =>
          (true,
           [Focus;
            SetSelectionRange (indexOf value (js ".orchest"))
                              (indexOf value (js ".orchest"))])
      | _ => (false, [])
      end).
  { rewrite IH.
    destruct (find eligible renders) as [[h' [value|]]|]; reflexivity. }
  destruct v as [[|c v]|].
  - rewrite andb_false_r. cbn [pathFieldEffect]. exact Hskip.
  - destruct h.
    + cbn [pathFieldEffect andb negb].
      now rewrite pathFieldRenders_initialized.
    + cbn [pathFieldEffect andb]. exact Hskip.
  - rewrite andb_false_r. cbn [pathFieldEffect]. exact Hskip.
Qed.

(** X16. When the field opens on a path that [getPathFromName] derived,
    the caret is put right before the extension. *)
Theorem pathField_caret_before_extension
        (unicodeToLowerCase : jsstring -> jsstring) (name : jsstring) :
  exists stem,
    getPathFromName unicodeToLowerCase name = stem ++ js ".orchest"
    /\ pathFieldEffect true
         (Some (getPathFromName unicodeToLowerCase name)) false
       = (true,
          [Focus;
           SetSelectionRange (Z.of_nat (length stem))
                             (Z.of_nat (length stem))]).
Proof.
  destruct (getPathFromName_stem unicodeToLowerCase name)
    as (stem & Hpath & Hword).
  exists stem. split; [exact Hpath|]. rewrite Hpath.
  assert (Hdot : ~ In 46%N stem).
  { intros Hin. rewrite forallb_forall in Hword.
    specialize (Hword _ Hin). discriminate Hword. }
  assert (Hidx : indexOf (stem ++ js ".orchest") (js ".orchest")
                 = Z.of_nat (length stem)).
  { pose proof (indexOfFrom_first 46%N (js "orchest") stem [] Hdot 0) as H.
    rewrite app_nil_r in H. exact H. }
  unfold pathFieldEffect.
  destruct (stem ++ js ".orchest") as [|c v] eqn:E.
  - destruct stem; discriminate E.
  - cbn [andb negb]. now rewrite Hidx.
Qed.

End PathField.

(** ** More about the working directory *)

Module WorkingDirectory.

Import Spec DialogSpec MoreSpec JSFacts CwdFacts LoadParametersDialog.

Lemma star_some (R : Type) (p : codeUnit -> bool) (k : mstate -> option R)
      (s : jsstring) (x : R) :
  forall i c,
    star p i s c k = Some x ->
    exists j, k (MState (i + j) (skipn j s) c) = Some x.
Proof.
  induction s as [|y s IH]; intros i c H; cbn [star] in H.
  - exists 0%nat. now rewrite Nat.add_0_r.
  - destruct (p y).
    + destruct (star p (S i) s c k) eqn:E.
      * injection H as <-. destruct (IH _ _ E) as [j Hj].
        exists (S j). cbn [skipn].
        now replace (i + S j)%nat with (S i + j)%nat by lia.
      * exists 0%nat. now rewrite Nat.add_0_r.
    + exists 0%nat. now rewrite Nat.add_0_r.
Qed.

Lemma afterStar_some (st x : mstate) :
  afterStar st = Some x -> exists c, rest st = c :: js "orchest".
Proof.
  destruct st as [i s c]. unfold afterStar, tailRegExp. cbn [rest].
  destruct s as [|c0 [|c1 [|c2 [|c3 [|c4 [|c5 [|c6 [|c7 [|c8 s]]]]]]]]];
    cbn -[N.eqb anyChar Nat.add Nat.sub]; intros H;
    repeat match type of H with
           | (if ?b then _ else _) = Some _ =>
               let E := fresh "E" in destruct b eqn:E; [|discriminate H]
           end; try discriminate H.
  repeat match goal with
         | E : (_ =? _)%N = true |- _ => apply N.eqb_eq in E; subst
         end.
  now exists c0.
Qed.

Lemma run_cwd_noTail (i : nat) (s : jsstring) :
  noTail s ->
  run cwdRegExp (MState i s None) (fun st => Some st) = None.
Proof.
  intros Hno. rewrite run_cwdRegExp. cbn [rest pos cap].
  assert (Hstar : forall j, star notSlash j s None afterStar = None).
  { intros j. destruct (star notSlash j s None afterStar) eqn:E;
      [|reflexivity].
    destruct (star_some _ _ _ _ _ _ _ E) as [k Hk].
    destruct (afterStar_some _ _ Hk) as [c Hc]. cbn [rest] in Hc.
    now apply Hno in Hc. }
  rewrite Hstar. destruct s as [|c0 s']; [reflexivity|].
  destruct (47 =? c0)%N; [|reflexivity].
  destruct (star notSlash (S i) s' None afterStar) eqn:E; [|reflexivity].
  destruct (star_some _ _ _ _ _ _ _ E) as [k Hk].
  destruct (afterStar_some _ _ Hk) as [c Hc]. cbn [rest] in Hc.
  exfalso. apply (Hno (S k) c). exact Hc.
Qed.

Lemma execFrom_cwd_noTail (s : jsstring) :
  noTail s -> forall i, execFrom cwdRegExp i s = None.
Proof.
  induction s as [|x s IH]; intros Hno i; rewrite execFrom_unfold,
    (run_cwd_noTail i _ Hno); [reflexivity|].
  apply IH. intros k c. apply (Hno (S k) c).
Qed.

Lemma noTail_endsWith (p : jsstring) :
  endsWith p (js "orchest") = false -> noTail p.
Proof.
  intros Hends k c Hk.
  assert (Hp : p = (firstn k p ++ [c]) ++ js "orchest").
  { rewrite <- app_assoc. cbn [app]. rewrite <- Hk.
    symmetry. apply firstn_skipn. }
  rewrite Hp, endsWith_app in Hends. discriminate Hends.
Qed.

(** X17. A path that does not end in "orchest" is left as it is: the
    working directory handed to the picker is then the whole path. *)
Theorem pipelineCwd_unchanged (p : jsstring) :
  endsWith p (js "orchest") = false ->
  pipelineCwd (Some p) = Some p.
Proof.
  intros H. unfold pipelineCwd, replace.
  now rewrite (execFrom_cwd_noTail p (noTail_endsWith p H) 0).
Qed.

Lemma pipelineCwd_unchanged_witness :
  pipelineCwd (Some (js "notebooks/train.ipynb"))
  = Some (js "notebooks/train.ipynb").
Proof.
  apply (pipelineCwd_unchanged (js "notebooks/train.ipynb")). reflexivity.
Defined.

(** *** Any separator before "orchest" *)

Lemma star_final_any (f : jsstring) (c : codeUnit) (i : nat) :
  noSlash f -> c <> 47%N -> isLineTerminator c = false ->
  star notSlash i (f ++ c :: js "orchest") None afterStar
  = Some (MState (i + length f + 8) [] None).
Proof.
  intros Hf Hc Hlt. apply star_skip; [now apply forallb_notSlash|].
  assert (Hns : notSlash c = true).
  { unfold notSlash. now apply negb_true_iff, N.eqb_neq. }
  assert (Hany : anyChar c = true).
  { unfold anyChar. now rewrite Hlt. }
  unfold afterStar, tailRegExp.
  cbn -[Nat.add notSlash anyChar]. rewrite Hns, Hany.
  cbn -[Nat.add]. do 2 f_equal. lia.
Qed.

Lemma execFrom_cwd_any (d f : jsstring) (c : codeUnit) :
  noSlash f -> c <> 47%N -> isLineTerminator c = false ->
  forall i,
    execFrom cwdRegExp i (d ++ 47%N :: f ++ c :: js "orchest")
    = Some (MatchResult (i + length d) (47%N :: f ++ c :: js "orchest") None).
Proof.
  intros Hf Hc Hlt. induction d as [|x d IH]; intros i.
  - cbn [app]. rewrite execFrom_unfold, run_cwdRegExp. cbn [rest pos cap].
    rewrite N.eqb_refl, (star_final_any f c (S i) Hf Hc Hlt).
    cbn [pos cap length]. rewrite Nat.add_0_r. f_equal. f_equal.
    apply firstn_all2. cbn [length]. rewrite length_app. cbn [length].
    change (length (js "orchest")) with 7%nat. lia.
  - assert (Hno := cwd_no_match (x :: d) (f ++ c :: js "orchest") i).
    cbn [app] in *. cbn [execFrom]. rewrite Hno.
    + rewrite IH. do 2 f_equal. cbn [length]. lia.
    + discriminate.
    + rewrite length_app. cbn [length].
    change (length (js "orchest")) with 7%nat. lia.
Qed.

Lemma execFrom_cwd_any_start (f : jsstring) (c : codeUnit) :
  noSlash f -> c <> 47%N -> isLineTerminator c = false ->
  execFrom cwdRegExp 0 (f ++ c :: js "orchest")
  = Some (MatchResult 0 (f ++ c :: js "orchest") None).
Proof.
  intros Hf Hc Hlt. rewrite execFrom_unfold, run_cwdRegExp.
  cbn [rest pos cap]. rewrite (star_final_any f c 0 Hf Hc Hlt).
  assert (Hopt :
    match f ++ c :: js "orchest" with
    | c0 :: s' =>
        if (47 =? c0)%N
        then star notSlash 1 s' None afterStar
        else None
    | [] => None (A:=mstate)
    end = None).
  { destruct f as [|x f]; cbn [app].
    - apply not_eq_sym, N.eqb_neq in Hc. now rewrite Hc.
    - apply Forall_inv in Hf. apply not_eq_sym, N.eqb_neq in Hf.
      now rewrite Hf. }
  rewrite Hopt. cbn [pos cap]. f_equal. f_equal.
  apply firstn_all2. rewrite length_app. cbn [length].
    change (length (js "orchest")) with 7%nat. lia.
Qed.

Lemma replace_cwd_separator (d f : jsstring) (c : codeUnit) :
  noSlash f -> c <> 47%N -> isLineTerminator c = false ->
  pipelineCwd (Some (d ++ js "/" ++ f ++ c :: js "orchest"))
  = Some (d ++ js "/")
  /\ pipelineCwd (Some (f ++ c :: js "orchest")) = Some (js "/").
Proof.
  intros Hf Hc Hlt. unfold pipelineCwd, replace. split.
  - change (js "/" ++ f ++ c :: js "orchest")
      with (47%N :: f ++ c :: js "orchest").
    rewrite (execFrom_cwd_any d f c Hf Hc Hlt 0). cbn [index matched Nat.add].
    rewrite firstn_app, firstn_all, Nat.sub_diag. cbn [firstn].
    rewrite app_nil_r, skipn_all2; [reflexivity|].
    rewrite length_app. lia.
  - rewrite (execFrom_cwd_any_start f c Hf Hc Hlt).
    cbn [index matched Nat.add firstn]. now rewrite skipn_all.
Qed.

(** X18. The dot of the pattern stands for any character: a final
    component that ends in "orchest" after any one code unit other than a
    slash or a line terminator is stripped like one that ends in
    ".orchest". *)
Theorem pipelineCwd_any_separator (d f : jsstring) (c : codeUnit) :
  noSlash f -> c <> 47%N -> isLineTerminator c = false ->
  pipelineCwd (Some (d ++ js "/" ++ f ++ c :: js "orchest"))
  = Some (d ++ js "/")
  /\ pipelineCwd (Some (f ++ c :: js "orchest")) = Some (js "/").
Proof. apply replace_cwd_separator. Qed.

Lemma pipelineCwd_any_separator_witness :
  pipelineCwd (Some (js "jobs" ++ js "/" ++ js "my" ++ 95%N :: js "orchest"))
  = Some (js "jobs" ++ js "/").
Proof.
  apply (pipelineCwd_any_separator (js "jobs") (js "my") 95%N).
  - repeat constructor; discriminate.
  - discriminate.
  - reflexivity.
Defined.

(** *** Every path that ends in the extension *)

Lemma split_last_slash (q : jsstring) :
  noSlash q \/ exists d f, q = d ++ 47%N :: f /\ noSlash f.
Proof.
  induction q as [|x q IH]; [left; constructor|].
  destruct IH as [Hq | (d & f & -> & Hf)].
  - destruct (N.eq_dec x 47) as [-> | Hx].
    + right. exists [], q. now split.
    + left. now constructor.
  - right. exists (x :: d), f. now split.
Qed.

Lemma endsWith_inv (s suffix : jsstring) :
  endsWith s suffix = true -> exists q, s = q ++ suffix.
Proof.
  unfold endsWith. intros H. apply andb_true_iff in H as [_ H].
  apply streq_eq in H. exists (firstn (length s - length suffix) s).
  rewrite <- H at 2. symmetry. apply firstn_skipn.
Qed.

(** X19. For every path that ends in ".orchest", the working directory
    ends in a slash and is what stands before the final component of the
    path, or "/" alone when the path has no directory. *)
Theorem pipelineCwd_directory (p : jsstring) :
  endsWith p (js ".orchest") = true ->
  exists d f,
    noSlash f
    /\ pipelineCwd (Some p) = Some (d ++ js "/")
    /\ (p = d ++ js "/" ++ f ++ js ".orchest"
        \/ (d = [] /\ p = f ++ js ".orchest")).
Proof.
  intros H. destruct (endsWith_inv p _ H) as [q ->].
  destruct (split_last_slash q) as [Hq | (d & f & -> & Hf)].
  - exists [], q. split; [exact Hq|]. split; [|right; now split].
    apply (replace_cwd_separator [] q 46%N Hq); [discriminate|reflexivity].
  - exists d, f. split; [exact Hf|]. rewrite <- app_assoc. cbn [app].
    split; [|now left].
    apply (replace_cwd_separator d f 46%N Hf); [discriminate|reflexivity].
Qed.

Lemma pipelineCwd_directory_witness :
  exists d f,
    noSlash f
    /\ pipelineCwd (Some (js "a/b/c.orchest")) = Some (d ++ js "/")
    /\ (js "a/b/c.orchest" = d ++ js "/" ++ f ++ js ".orchest"
        \/ (d = [] /\ js "a/b/c.orchest" = f ++ js ".orchest")).
Proof.
  apply (pipelineCwd_directory (js "a/b/c.orchest")). reflexivity.
Defined.

End WorkingDirectory.
